(** * Sentiment review service: classifier, store and request handlers

    A shallow embedding of [app.py]: the lexical sentiment classifier
    [sentiment_comment], the [reviews] table declared by [SQL_INIT_DB], and
    the two Flask routes [add_review] (POST /reviews) and [get_reviews]
    (GET /reviews), followed by the properties established about them. *)

From Stdlib Require Import String Ascii.
From Stdlib Require Import ZArith NArith Bool List Lia.
From Stdlib Require Import Sorted Permutation.
Import ListNotations.

Set Warnings "-register-all".

Local Open Scope Z_scope.

(** ** Python strings

    A Python [str] is a sequence of Unicode code points; a code point is an
    [N].  String literals of the source are written as UTF-8 literals and
    decoded once, so that [u "не"] is the two code points U+043D U+0435. *)

Definition char := N.
Definition str := list char.

Fixpoint utf8_decode (bs : list N) : str :=
  match bs with
  | [] => []
  | b0 :: r0 =>
    if (b0 <? 128)%N then b0 :: utf8_decode r0
    else match r0 with
    | [] => [b0]
    | b1 :: r1 =>
      if (b0 <? 224)%N then
        ((b0 mod 32) * 64 + b1 mod 64)%N :: utf8_decode r1
      else match r1 with
      | [] => [b0; b1]
      | b2 :: r2 =>
        if (b0 <? 240)%N then
          ((b0 mod 16) * 4096 + (b1 mod 64) * 64 + b2 mod 64)%N
            :: utf8_decode r2
        else match r2 with
        | [] => [b0; b1; b2]
        | b3 :: r3 =>
          ((b0 mod 8) * 262144 + (b1 mod 64) * 4096
             + (b2 mod 64) * 64 + b3 mod 64)%N :: utf8_decode r3
        end
      end
    end
  end.

Definition u (s : string) : str :=
  utf8_decode (map N_of_ascii (list_ascii_of_string s)).

(** [a == b] on strings. *)
Fixpoint str_eqb (a b : str) : bool :=
  match a, b with
  | [], [] => true
  | x :: a', y :: b' => (x =? y)%N && str_eqb a' b'
  | _, _ => false
  end.

(** [word.startswith(prefix)]. *)
Fixpoint startswith (word prefix : str) {struct prefix} : bool :=
  match prefix with
  | [] => true
  | p :: prefix' =>
    match word with
    | [] => false
    | w :: word' => (w =? p)%N && startswith word' prefix'
    end
  end.

(** [str.isspace] on one code point: the white space of [str.split()] and
    [str.strip()] called without an argument. *)
Definition isspace (c : char) : bool :=
  ((9 <=? c) && (c <=? 13) || (28 <=? c) && (c <=? 32)
   || (c =? 133) || (c =? 160) || (c =? 5760)
   || (8192 <=? c) && (c <=? 8202)
   || (c =? 8232) || (c =? 8233) || (c =? 8239) || (c =? 8287)
   || (c =? 12288))%N.

(** [s.split()]: the maximal runs of non-space characters, in order.  [cur]
    holds the run being read, last character first. *)
Definition flush (cur : str) (k : list str) : list str :=
  match cur with
  | [] => k
  | _ :: _ => rev cur :: k
  end.

Fixpoint split_from (cur : str) (s : str) : list str :=
  match s with
  | [] => flush cur []
  | c :: s' =>
    if isspace c then flush cur (split_from [] s')
    else split_from (c :: cur) s'
  end.

Definition split (s : str) : list str := split_from [] s.

(** [s.strip()]. *)
Fixpoint lstrip (s : str) : str :=
  match s with
  | [] => []
  | c :: s' => if isspace c then lstrip s' else s
  end.

Definition rstrip (s : str) : str := rev (lstrip (rev s)).

Definition strip (s : str) : str := rstrip (lstrip s).

(** [needle in haystack] on strings. *)
Fixpoint str_contains (haystack needle : str) : bool :=
  startswith haystack needle
  || match haystack with
     | [] => false
     | _ :: h' => str_contains h' needle
     end.

(** [str.lower] is the interpreter's Unicode lower-casing; the development
    takes it as a parameter [lower].  [lower_basic] is its restriction to
    the Latin and Cyrillic capitals A-Z, U+0400-U+040F and U+0410-U+042F,
    which it maps as [str.lower] does, leaving every other code point in
    place; it instantiates [lower] on concrete inputs. *)
Definition lower_char (c : char) : char :=
  (if (65 <=? c) && (c <=? 90) then c + 32
   else if (1040 <=? c) && (c <=? 1071) then c + 32
   else if (1024 <=? c) && (c <=? 1039) then c + 80
   else c)%N.

Definition lower_basic (s : str) : str := map lower_char s.

(** ** Exceptions

    What the modelled code can raise, and the result of a computation that
    may raise. *)

Inductive exn : Type :=
  | IndexError
  | KeyError
  | TypeError
  | AttributeError
  | BadRequest           (* [request.json] on a body that is not JSON *)
  | MissingText          (* Exception('В запросе отсутствует атрибут text') *)
  | InvalidSentiment     (* Exception('Атрибут sentiment имеет недопустимое значение') *)
  | IntegrityError       (* sqlite3: a CHECK or NOT NULL constraint failed *)
  | OperationalError     (* sqlite3: no row id left, database full *)
  | UnicodeEncodeError.  (* sqlite3: a bound string UTF-8 cannot encode *)

Inductive result (A : Type) : Type :=
  | Ok (a : A)
  | Raise (e : exn).
Arguments Ok {A} a.
Arguments Raise {A} e.

Definition bind {A B} (m : result A) (k : A -> result B) : result B :=
  match m with
  | Ok a => k a
  | Raise e => Raise e
  end.

Notation "x <- m ;; k" := (bind m (fun x => k))
  (at level 61, m at next level, right associativity).
Notation "' pat <- m ;; k" := (bind m (fun x => match x with pat => k end))
  (at level 61, pat pattern, m at next level, right associativity).

(** [l[i]] on a Python list: a negative index counts from the end, and an
    index out of range raises. *)
Definition getitem {A} (l : list A) (i : Z) : result A :=
  let n := Z.of_nat (length l) in
  let j := if i <? 0 then i + n else i in
  if (j <? 0) || (n <=? j) then Raise IndexError
  else match nth_error l (Z.to_nat j) with
       | Some x => Ok x
       | None => Raise IndexError
       end.

(** ** The classifier *)

Definition positive_words : list str := Eval vm_compute in
  map u ["хорош"; "люблю"; "любим"; "отличн"; "обожа"; "прекрасн";
         "замечательн"; "классн"; "кайф"; "приятн"]%string.

Definition negative_words : list str := Eval vm_compute in
  map u ["плох"; "ужас"; "ненавиж"; "отвра"; "отстой"]%string.

Definition ne : str := Eval vm_compute in u "не".

Definition positive : str := Eval vm_compute in u "positive".
Definition negative : str := Eval vm_compute in u "negative".
Definition neutral : str := Eval vm_compute in u "neutral".

(** [any(word.startswith(w) for w in stems)]. *)
Definition any_startswith (word : str) (stems : list str) : bool :=
  existsb (startswith word) stems.

(** The test of both branches of the loop:
    [word[:2] == 'не' or (i > 0 and words[i - 1] == 'не')]. *)
Definition negation_test (words : list str) (i : Z) (word : str)
  : result bool :=
  if str_eqb (firstn 2 word) ne then Ok true
  else if i >? 0 then
    prev <- getitem words (i - 1) ;; Ok (str_eqb prev ne)
  else Ok false.

(** The body of [for i, word in enumerate(words)] on the two counters. *)
Definition loop_body (words : list str) (i : Z) (word : str)
  (counts : Z * Z) : result (Z * Z) :=
  let '(positive_count, negative_count) := counts in
  if any_startswith word positive_words then
    neg <- negation_test words i word ;;
    if neg then Ok (positive_count, negative_count + 1)
    else Ok (positive_count + 1, negative_count)
  else if any_startswith word negative_words then
    neg <- negation_test words i word ;;
    if neg then Ok (positive_count + 1, negative_count)
    else Ok (positive_count, negative_count + 1)
  else Ok counts.

(** The loop over [enumerate(rest)] started at index [i]. *)
Fixpoint for_enumerate (words : list str) (i : Z) (rest : list str)
  (counts : Z * Z) : result (Z * Z) :=
  match rest with
  | [] => Ok counts
  | word :: rest' =>
    counts' <- loop_body words i word counts ;;
    for_enumerate words (i + 1) rest' counts'
  end.

(** The counters after the whole loop, and after its first [k] rounds. *)
Definition count_words (words : list str) : result (Z * Z) :=
  for_enumerate words 0 words (0, 0).

Definition counts_after (words : list str) (k : nat) : result (Z * Z) :=
  for_enumerate words 0 (firstn k words) (0, 0).

(** The final comparison of the counters. *)
Definition label_of (counts : Z * Z) : str :=
  let '(positive_count, negative_count) := counts in
  if positive_count >? negative_count then positive
  else if negative_count >? positive_count then negative
  else neutral.

Section Classifier.

Variable lower : str -> str.

(** [words = review.lower().split()]. *)
Definition tokens (review : str) : list str := split (lower review).

Definition sentiment_comment (review : str) : result str :=
  let words := tokens review in
  counts <- count_words words ;;
  Ok (label_of counts).

End Classifier.

(** ** The store

    The table [reviews] of [SQL_INIT_DB]:
    [id INTEGER PRIMARY KEY AUTOINCREMENT], three [TEXT NOT NULL] columns and
    [CHECK (sentiment in ('positive', 'negative', 'neutral'))]. *)

Record Review : Type := {
  id : Z;
  sentiment : str;
  text : str;
  created_at : str
}.

(** The rows of the table, and [seq], the largest row id the table has ever
    held, which AUTOINCREMENT keeps in [sqlite_sequence]. *)
Record table : Type := {
  rows : list Review;
  seq : Z
}.

(** The data base after [init_db] on a new file. *)
Definition empty_table : table := {| rows := []; seq := 0 |}.

(** The largest row id of a 64-bit signed [INTEGER PRIMARY KEY]. *)
Definition MAX_ROWID : Z := 9223372036854775807.

Definition ids (t : table) : list Z := map id (rows t).

Definition max_id (t : table) : Z := fold_right Z.max 0 (ids t).

(** The CHECK constraint of the table. *)
Definition sentiment_check (s : str) : bool :=
  existsb (str_eqb s) [positive; negative; neutral].

(** [INSERT INTO reviews (text, sentiment, created_at) VALUES (...)] and its
    [lastrowid].  A bound value is a string or [None], which SQL reads as
    NULL.  The row id comes first: AUTOINCREMENT takes the id one above the
    largest id that ever was in the table, and the statement fails once
    [MAX_ROWID] has been used; the NOT NULL and CHECK constraints are
    tested on the row after that. *)
Definition sql_insert (t : table) (text_v sentiment_v created_at_v : option str)
  : result (Z * table) :=
  let last := Z.max (seq t) (max_id t) in
  if last >=? MAX_ROWID then Raise OperationalError
  else
    let rowid := last + 1 in
    match text_v, sentiment_v, created_at_v with
    | Some tx, Some se, Some cr =>
      if negb (sentiment_check se) then Raise IntegrityError
      else
        let row := {| id := rowid; sentiment := se; text := tx;
                      created_at := cr |} in
        Ok (rowid, {| rows := rows t ++ [row]; seq := rowid |})
    | _, _, _ => Raise IntegrityError
    end.

(** [ORDER BY id]: insertion into a list ordered by id. *)
Fixpoint insert_by_id (r : Review) (l : list Review) : list Review :=
  match l with
  | [] => [r]
  | x :: l' => if id r <=? id x then r :: l else x :: insert_by_id r l'
  end.

Definition order_by_id (l : list Review) : list Review :=
  fold_right insert_by_id [] l.

(** The WHERE clause: [SQL_GET_REVIEWS_WHERE] with its parameter, or none. *)
Definition where_clause (param : option str) (r : Review) : bool :=
  match param with
  | Some s => str_eqb (sentiment r) s
  | None => true
  end.

(** [SQL_GET_REVIEWS]:
    [SELECT id, sentiment, text, created_at FROM reviews {} ORDER BY id]. *)
Definition sql_select (t : table) (param : option str) : list Review :=
  order_by_id (filter (where_clause param) (rows t)).

(** ** A request and its connection

    [disk] is [reviews.db] as committed; [g_database] is the connection
    that [get_db] keeps in [g] for the request, as the table it sees, its
    own uncommitted writes included; [executed] records the statements the
    cursor ran. *)

Inductive statement : Type :=
  | INSERT (text_v sentiment_v created_at_v : str)
  | SELECT (param : option str).

Record world : Type := {
  disk : table;
  g_database : option table;
  executed : list statement
}.

(** Code that reads and writes the world and may raise; an exception leaves
    the world as it was when raised. *)
Definition io (A : Type) : Type := world -> result A * world.

Definition io_ret {A} (a : A) : io A := fun w => (Ok a, w).

Definition io_raise {A} (e : exn) : io A := fun w => (Raise e, w).

Definition io_bind {A B} (m : io A) (k : A -> io B) : io B :=
  fun w =>
    match m w with
    | (Ok a, w') => k a w'
    | (Raise e, w') => (Raise e, w')
    end.

Definition io_lift {A} (r : result A) : io A := fun w => (r, w).

Notation "x <~ m ;; k" := (io_bind m (fun x => k))
  (at level 61, m at next level, right associativity).

(** [get_db]: the connection of the request, opened on first use. *)
Definition get_db : io table :=
  fun w =>
    match g_database w with
    | Some c => (Ok c, w)
    | None =>
      (Ok (disk w),
       {| disk := disk w; g_database := Some (disk w);
          executed := executed w |})
    end.

(** A string is bound to a statement as UTF-8, which has no encoding for
    a surrogate code point, U+D800 to U+DFFF: binding a string that holds
    one raises and the statement does not run. *)
Definition is_surrogate (c : char) : bool :=
  ((55296 <=? c) && (c <=? 57343))%N.

Definition encodable (s : str) : bool :=
  forallb (fun c => negb (is_surrogate c)) s.

(** [cursor.execute("INSERT ...", review_dict).lastrowid]. *)
Definition execute_insert (text_v sentiment_v created_at_v : str) : io Z :=
  c <~ get_db ;;
  fun w =>
    let w1 := {| disk := disk w; g_database := g_database w;
                 executed := executed w
                   ++ [INSERT text_v sentiment_v created_at_v] |} in
    if negb (encodable text_v && encodable sentiment_v
             && encodable created_at_v)
    then (Raise UnicodeEncodeError, w1)
    else
      match sql_insert c (Some text_v) (Some sentiment_v) (Some created_at_v)
      with
      | Ok (rowid, c') =>
        (Ok rowid, {| disk := disk w1; g_database := Some c';
                      executed := executed w1 |})
      | Raise e => (Raise e, w1)
      end.

(** [cursor.execute(SQL_GET_REVIEWS.format(where), params)] and the rows
    read from the cursor. *)
Definition execute_select (param : option str) : io (list Review) :=
  c <~ get_db ;;
  fun w =>
    let w1 := {| disk := disk w; g_database := g_database w;
                 executed := executed w ++ [SELECT param] |} in
    if negb (match param with Some s => encodable s | None => true end)
    then (Raise UnicodeEncodeError, w1)
    else (Ok (sql_select c param), w1).

(** [db.commit()]. *)
Definition commit : io unit :=
  c <~ get_db ;;
  fun w =>
    (Ok tt, {| disk := c; g_database := Some c; executed := executed w |}).

(** [close_connection], run when the request ends: what was not committed
    is lost with the connection. *)
Definition close_connection (w : world) : world :=
  {| disk := disk w; g_database := None; executed := executed w |}.

(** ** The routes *)

(** A parsed JSON body.  A number's value plays no part in the routes.
    [items] are the items of the [dict] an object is parsed to, one per
    key. *)
Inductive json : Type :=
  | JNull
  | JBool (b : bool)
  | JNumber (n : Z)
  | JString (s : str)
  | JArray (l : list json)
  | JObject (items : list (str * json)).

Definition text_key : str := Eval vm_compute in u "text".

Fixpoint dict_get (items : list (str * json)) (key : str) : option json :=
  match items with
  | [] => None
  | (k, v) :: items' => if str_eqb k key then Some v else dict_get items' key
  end.

Definition is_text_string (j : json) : bool :=
  match j with
  | JString s => str_eqb s text_key
  | _ => false
  end.

(** ['text' in req]. *)
Definition contains_text (req : json) : result bool :=
  match req with
  | JObject items =>
    Ok (match dict_get items text_key with Some _ => true | None => false end)
  | JArray l => Ok (existsb is_text_string l)
  | JString s => Ok (str_contains s text_key)
  | _ => Raise TypeError
  end.

(** [req['text']], reached when ['text' in req] holds. *)
Definition getitem_text (req : json) : result json :=
  match req with
  | JObject items =>
    match dict_get items text_key with
    | Some v => Ok v
    | None => Raise KeyError
    end
  | _ => Raise TypeError
  end.

(** [v.strip()] on a value of the body. *)
Definition strip_value (v : json) : result str :=
  match v with
  | JString s => Ok (strip s)
  | _ => Raise AttributeError
  end.

Inductive response : Type :=
  | Json200 (r : Review)              (* json.dumps(review_dict) *)
  | JsonList200 (l : list Review)     (* the list of reviews *)
  | Error400 (e : exn).               (* json.dumps({'error': str(e)}), 400 *)

Section Routes.

Variable lower : str -> str.

(** The [try] block of [add_review]; [body] is [request.json], [None]
    when the body is not JSON, and [now] is
    [datetime.now(UTC).isoformat()]. *)
Definition add_review_try (body : option json) (now : str) : io Review :=
  req <~ io_lift (match body with
                  | Some j => Ok j
                  | None => Raise BadRequest
                  end) ;;
  has_text <~ io_lift (contains_text req) ;;
  if negb has_text then io_raise MissingText
  else
    v <~ io_lift (getitem_text req) ;;
    review <~ io_lift (strip_value v) ;;
    label <~ io_lift (sentiment_comment lower review) ;;
    _ <~ get_db ;;
    rowid <~ execute_insert review label now ;;
    _ <~ commit ;;
    io_ret {| id := rowid; sentiment := label; text := review;
              created_at := now |}.

Definition add_review (body : option json) (now : str)
  : world -> response * world :=
  fun w =>
    match add_review_try body now w with
    | (Ok r, w') => (Json200 r, w')
    | (Raise e, w') => (Error400 e, w')
    end.

(** The [try] block of [get_reviews]; [arg] is the [sentiment] parameter
    of the query string, [None] when omitted. *)
Definition get_reviews_try (arg : option str) : io (list Review) :=
  let sentiment :=
    lower (strip (match arg with Some v => v | None => [] end)) in
  if negb (existsb (str_eqb sentiment) [positive; negative; neutral; []])
  then io_raise InvalidSentiment
  else
    let param :=
      match sentiment with
      | [] => None
      | _ :: _ => Some sentiment
      end in
    _ <~ get_db ;;
    reviews <~ execute_select param ;;
    io_ret reviews.

Definition get_reviews (arg : option str) : world -> response * world :=
  fun w =>
    match get_reviews_try arg w with
    | (Ok l, w') => (JsonList200 l, w')
    | (Raise e, w') => (Error400 e, w')
    end.

End Routes.

(** One request from its application context to its teardown: the response,
    the data base left on disk and the statements that ran. *)
Definition serve (handler : world -> response * world) (d : table)
  : response * table * list statement :=
  let '(resp, w) :=
    handler {| disk := d; g_database := None; executed := [] |} in
  let w' := close_connection w in
  (resp, disk w', executed w').

(** ** Notions used by the statements *)

(** A string of white space only; the empty string is one. *)
Definition blank (s : str) : Prop := Forall (fun c => isspace c = true) s.

(** Negation as the algorithm is described: the token's first two characters
    are the prefix, or the token just before it is the negation word. *)
Definition negation_holds (words : list str) (i : nat) (word : str) : Prop :=
  firstn 2 word = ne \/ exists j, i = S j /\ nth_error words j = Some ne.

(** What one round of the loop does to the counters, by cases on the token. *)
Definition round (words : list str) (i : nat) (word : str) (counts : Z * Z)
  : Z * Z -> Prop :=
  fun counts' =>
    let '(p, n) := counts in
    if any_startswith word positive_words then
      (negation_holds words i word -> counts' = (p, n + 1))
      /\ (~ negation_holds words i word -> counts' = (p + 1, n))
    else if any_startswith word negative_words then
      (negation_holds words i word -> counts' = (p + 1, n))
      /\ (~ negation_holds words i word -> counts' = (p, n + 1))
    else counts' = counts.

Definition nenavizh : str := Eval vm_compute in u "ненавиж".
Definition nenavizhu : str := Eval vm_compute in u "ненавижу".

(** No white space at either end. *)
Definition trimmed (s : str) : Prop :=
  (forall c, hd_error s = Some c -> isspace c = false)
  /\ (forall c, hd_error (rev s) = Some c -> isspace c = false).

(** Ascending ids. *)
Definition id_lt (a b : Review) : Prop := id a < id b.

Definition id_le (a b : Review) : Prop := id a <= id b.

(** A run of INSERT statements, one after the other, and the ids of those
    that succeeded, in order. *)
Fixpoint insert_all (t : table)
  (values : list (option str * option str * option str)) : list Z * table :=
  match values with
  | [] => ([], t)
  | (tx, se, cr) :: values' =>
    match sql_insert t tx se cr with
    | Ok (rowid, t') =>
      let '(l, t'') := insert_all t' values' in (rowid :: l, t'')
    | Raise _ => insert_all t values'
    end
  end.

(** The [sentiment] parameter as [get_reviews] reads it. *)
Definition normalised (lower : str -> str) (arg : option str) : str :=
  lower (strip (match arg with Some v => v | None => [] end)).

Definition param_of (sentiment : str) : option str :=
  match sentiment with
  | [] => None
  | _ :: _ => Some sentiment
  end.

(** A small data base and a clock reading for concrete runs. *)
Definition sample_now : str := Eval vm_compute in
  u "2026-01-01T00:00:00+00:00".

Definition sample_table : table := Eval vm_compute in
  {| rows :=
       [ {| id := 1; sentiment := positive; text := u "отличный фильм";
            created_at := sample_now |};
         {| id := 2; sentiment := negative; text := u "плохо";
            created_at := sample_now |};
         {| id := 3; sentiment := positive; text := u "люблю";
            created_at := sample_now |} ];
     seq := 3 |}.

(** [sample_table] after one more review, and after two. *)
Definition sample_table_4 : table := Eval vm_compute in
  {| rows := rows sample_table
             ++ [ {| id := 4; sentiment := positive; text := u "кайф";
                     created_at := sample_now |} ];
     seq := 4 |}.

Definition sample_table_5 : table := Eval vm_compute in
  {| rows := rows sample_table_4
             ++ [ {| id := 5; sentiment := negative; text := u "ужас";
                     created_at := sample_now |} ];
     seq := 5 |}.

(** ** Further notions: tokens, tables, runs of requests *)

(** A token that starts with one of the stems, of either list. *)
Definition matches_stem (word : str) : bool :=
  any_startswith word positive_words || any_startswith word negative_words.

(** A string without white space. *)
Definition solid (w : str) : Prop := Forall (fun c => isspace c = false) w.

(** A table as the INSERT statement builds it: rows in increasing order of
    id, each with a sentiment the CHECK constraint accepts. *)
Definition table_ok (t : table) : Prop :=
  StronglySorted id_lt (rows t)
  /\ Forall (fun r => sentiment_check (sentiment r) = true) (rows t).

(** The data base file: the table [reviews], once created, and whether the
    index [idx_reviews_sent] exists. *)
Record db_file : Type := {
  reviews : option table;
  idx_reviews_sent : bool
}.

(** [CREATE TABLE IF NOT EXISTS reviews (...)]. *)
Definition create_table_if_not_exists (f : db_file) : result db_file :=
  match reviews f with
  | Some _ => Ok f
  | None =>
    Ok {| reviews := Some empty_table;
          idx_reviews_sent := idx_reviews_sent f |}
  end.

(** [CREATE INDEX IF NOT EXISTS idx_reviews_sent ON reviews (sentiment)];
    without the table the statement fails. *)
Definition create_index_if_not_exists (f : db_file) : result db_file :=
  if idx_reviews_sent f then Ok f
  else
    match reviews f with
    | Some t => Ok {| reviews := Some t; idx_reviews_sent := true |}
    | None => Raise OperationalError
    end.

Definition SQL_INIT_DB : list (db_file -> result db_file) :=
  [create_table_if_not_exists; create_index_if_not_exists].

(** [init_db]: the statements of [SQL_INIT_DB] in order; they belong to no
    transaction, so each one that ran stays; an exception ends the loop and
    is logged, not raised. *)
Fixpoint execute_each (stmts : list (db_file -> result db_file))
  (f : db_file) : db_file :=
  match stmts with
  | [] => f
  | sql :: stmts' =>
    match sql f with
    | Ok f' => execute_each stmts' f'
    | Raise _ => f
    end
  end.

Definition init_db (f : db_file) : db_file := execute_each SQL_INIT_DB f.

(** A request to one of the two routes, and a run of requests served one
    after the other. *)
Inductive request : Type :=
  | POST_reviews (body : option json) (now : str)
  | GET_reviews (arg : option str).

Definition route (lower : str -> str) (rq : request)
  : world -> response * world :=
  match rq with
  | POST_reviews body now => add_review lower body now
  | GET_reviews arg => get_reviews lower arg
  end.

Fixpoint serve_all (lower : str -> str) (rqs : list request) (d : table)
  : list response * table :=
  match rqs with
  | [] => ([], d)
  | rq :: rqs' =>
    let '(resp, d1, _) := serve (route lower rq) d in
    let '(resps, d2) := serve_all lower rqs' d1 in
    (resp :: resps, d2)
  end.

(** The reviews that a list of responses reports as created. *)
Definition created (resps : list response) : list Review :=
  flat_map (fun resp => match resp with
                        | Json200 r => [r]
                        | _ => []
                        end) resps.

(** ** Strings: equality, prefixes and white space *)

Lemma str_eqb_eq (a b : str) : str_eqb a b = true <-> a = b.
Proof.
  revert b; induction a as [|x a IH]; intros [|y b]; simpl;
    try (split; [discriminate | congruence]); try tauto.
  rewrite andb_true_iff, N.eqb_eq, IH.
  split; [intros [-> ->]; reflexivity | intros [= -> ->]; auto].
Qed.

Lemma str_eqb_refl (a : str) : str_eqb a a = true.
Proof. apply str_eqb_eq; reflexivity. Qed.

Lemma str_eqb_neq (a b : str) : str_eqb a b = false <-> a <> b.
Proof.
  rewrite <- str_eqb_eq. destruct (str_eqb a b); split; congruence.
Qed.

Lemma startswith_prefix (word prefix : str) :
  startswith word prefix = true <-> exists rest, word = prefix ++ rest.
Proof.
  revert word; induction prefix as [|p prefix IH]; intros word; simpl.
  - split; [intros _; exists word; reflexivity | reflexivity].
  - destruct word as [|w word].
    + split; [discriminate | intros [rest H]; discriminate].
    + rewrite andb_true_iff, N.eqb_eq, IH. split.
      * intros [-> [rest ->]]. exists rest; reflexivity.
      * intros [rest [= -> ->]]. split; [reflexivity | exists rest; reflexivity].
Qed.

Lemma labels_distinct :
  positive <> negative /\ positive <> neutral /\ negative <> neutral.
Proof. repeat split; discriminate. Qed.

Lemma split_from_blank (s : str) : blank s -> split_from [] s = [].
Proof.
  induction 1 as [|c s Hc _ IH]; simpl; [reflexivity|].
  rewrite Hc. exact IH.
Qed.

Lemma lower_char_space (c : char) : isspace c = true -> lower_char c = c.
Proof.
  unfold isspace, lower_char. intros H.
  repeat rewrite orb_true_iff in H. repeat rewrite andb_true_iff in H.
  repeat rewrite N.leb_le in H. repeat rewrite N.eqb_eq in H.
  repeat match goal with
         | |- context [(?a <=? ?b)%N] => destruct (N.leb_spec a b); simpl
         end; try reflexivity; lia.
Qed.

(** ** The loop of the classifier *)

Lemma getitem_nth_error {A} (l : list A) (j : nat) (x : A) :
  nth_error l j = Some x -> getitem l (Z.of_nat j) = Ok x.
Proof.
  intros H. unfold getitem.
  assert (Hlt : (j < length l)%nat)
    by (apply nth_error_Some; rewrite H; discriminate).
  destruct (Z.ltb_spec (Z.of_nat j) 0); [lia|].
  destruct (Z.ltb_spec (Z.of_nat j) 0); [lia|].
  destruct (Z.leb_spec (Z.of_nat (length l)) (Z.of_nat j)); [lia|].
  simpl. rewrite Nat2Z.id, H. reflexivity.
Qed.

Lemma negation_test_spec (words : list str) (i : nat) (word : str) :
  nth_error words i = Some word ->
  exists b, negation_test words (Z.of_nat i) word = Ok b
            /\ (b = true <-> negation_holds words i word).
Proof.
  intros Hi. unfold negation_test, negation_holds.
  destruct (str_eqb (firstn 2 word) ne) eqn:Hself.
  - exists true. split; [reflexivity|].
    apply str_eqb_eq in Hself. tauto.
  - apply str_eqb_neq in Hself.
    destruct (Z.gtb_spec (Z.of_nat i) 0) as [Hpos|Hzero].
    + destruct i as [|j]; [lia|].
      replace (Z.of_nat (S j) - 1) with (Z.of_nat j) by lia.
      assert (Hj : (j < length words)%nat).
      { assert (S j < length words)%nat
          by (apply nth_error_Some; rewrite Hi; discriminate). lia. }
      destruct (nth_error words j) as [prev|] eqn:Hprev;
        [|apply nth_error_None in Hprev; lia].
      rewrite (getitem_nth_error _ _ _ Hprev). simpl.
      exists (str_eqb prev ne). split; [reflexivity|].
      rewrite str_eqb_eq. split.
      * intros ->. right. exists j. auto.
      * intros [H|[j' [Hj' Hne]]]; [contradiction|].
        injection Hj' as <-. congruence.
    + exists false. split; [reflexivity|].
      split; [discriminate|].
      intros [H|[j [-> _]]]; [contradiction | lia].
Qed.

Lemma loop_body_spec (words : list str) (i : nat) (word : str)
  (counts : Z * Z) :
  nth_error words i = Some word ->
  exists counts', loop_body words (Z.of_nat i) word counts = Ok counts'
                  /\ round words i word counts counts'.
Proof.
  intros Hi. destruct counts as [p n]. unfold loop_body, round.
  destruct (negation_test_spec words i word Hi) as [b [Hb Hiff]].
  destruct (any_startswith word positive_words);
    [|destruct (any_startswith word negative_words)];
    try (eexists; split; reflexivity).
  all: rewrite Hb; simpl; destruct b; eexists; (split; [reflexivity|]).
  all: split; intros H; try reflexivity.
  all: try (exfalso; apply H; apply Hiff; reflexivity).
  all: apply Hiff in H; discriminate.
Qed.

Lemma for_enumerate_app (words : list str) (a b : list str) :
  forall i counts,
    for_enumerate words i (a ++ b) counts =
    bind (for_enumerate words i a counts)
         (for_enumerate words (i + Z.of_nat (length a)) b).
Proof.
  induction a as [|w a IH]; intros i counts; simpl.
  - f_equal. lia.
  - destruct (loop_body words i w counts) as [c|e]; simpl; [|reflexivity].
    rewrite IH. do 2 f_equal. lia.
Qed.

(** The loop never raises: at each round the index is one of [words]. *)
Lemma for_enumerate_total (words : list str) (rest : list str) :
  forall pre post counts,
    words = pre ++ rest ++ post ->
    exists counts',
      for_enumerate words (Z.of_nat (length pre)) rest counts = Ok counts'.
Proof.
  induction rest as [|word rest IH]; intros pre post counts Hw; simpl.
  - eexists; reflexivity.
  - assert (Hi : nth_error words (length pre) = Some word).
    { rewrite Hw, nth_error_app2 by lia. rewrite Nat.sub_diag. reflexivity. }
    destruct (loop_body_spec words _ word counts Hi) as [c [Hc _]].
    rewrite Hc; simpl.
    replace (Z.of_nat (length pre) + 1)
      with (Z.of_nat (length (pre ++ [word])))
      by (rewrite length_app; simpl; lia).
    apply (IH (pre ++ [word]) post).
    rewrite Hw, <- app_assoc. reflexivity.
Qed.

Lemma counts_after_total (words : list str) (k : nat) :
  exists counts, counts_after words k = Ok counts.
Proof.
  unfold counts_after.
  apply (for_enumerate_total words (firstn k words) [] (skipn k words)).
  simpl. symmetry. apply firstn_skipn.
Qed.

Lemma count_words_total (words : list str) :
  exists counts, count_words words = Ok counts.
Proof.
  unfold count_words.
  apply (for_enumerate_total words words [] []).
  simpl. rewrite app_nil_r. reflexivity.
Qed.

Lemma counts_after_all (words : list str) :
  counts_after words (length words) = count_words words.
Proof. unfold counts_after. rewrite firstn_all. reflexivity. Qed.

Lemma firstn_snoc {A} (l : list A) (k : nat) (x : A) :
  nth_error l k = Some x -> firstn (S k) l = firstn k l ++ [x].
Proof.
  revert k; induction l as [|y l IH]; intros [|k] H; simpl in *;
    try discriminate.
  - injection H as ->. reflexivity.
  - rewrite (IH k H). reflexivity.
Qed.

Lemma counts_after_S (words : list str) (k : nat) (word : str) :
  nth_error words k = Some word ->
  counts_after words (S k) =
  bind (counts_after words k) (loop_body words (Z.of_nat k) word).
Proof.
  intros Hk. unfold counts_after.
  rewrite (firstn_snoc _ _ _ Hk), for_enumerate_app.
  assert (Hlen : length (firstn k words) = k).
  { apply firstn_length_le.
    assert (k < length words)%nat
      by (apply nth_error_Some; rewrite Hk; discriminate). lia. }
  rewrite Hlen. simpl.
  destruct (for_enumerate words 0 (firstn k words) (0, 0)) as [c|e];
    simpl; [|reflexivity].
  destruct (loop_body words (Z.of_nat k) word c); reflexivity.
Qed.

Lemma lower_basic_blank (s : str) : blank s -> blank (lower_basic s).
Proof.
  unfold blank, lower_basic. intros H. apply Forall_map.
  apply Forall_impl with (2 := H). intros c Hc.
  rewrite (lower_char_space c Hc). exact Hc.
Qed.

Lemma nenavizh_token (word : str) :
  startswith word nenavizh = true ->
  firstn 2 word = ne
  /\ any_startswith word positive_words = false
  /\ any_startswith word negative_words = true.
Proof.
  intros H. apply startswith_prefix in H. destruct H as [rest ->].
  repeat split; reflexivity.
Qed.

(** ** The classifier: negation, final label, totality *)

(** C1: for every input and every token of it that starts with a positive
    or a negative stem, the round of the loop for that token inverts the
    contribution exactly when negation holds, that is when the token's first
    two characters are "не" or the token just before it is "не": with
    negation a positive-raw token adds one to [negative_count] and a
    negative-raw token adds one to [positive_count]; without negation the
    counter of the raw polarity gets the increment. *)
Theorem negation_inverts_contribution
  (lower : str -> str) (review : str) (i : nat) (word : str) :
  nth_error (tokens lower review) i = Some word ->
  any_startswith word positive_words = true
  \/ any_startswith word negative_words = true ->
  exists positive_count negative_count,
    counts_after (tokens lower review) i
      = Ok (positive_count, negative_count)
    /\ (negation_holds (tokens lower review) i word ->
        counts_after (tokens lower review) (S i)
        = Ok (if any_startswith word positive_words
              then (positive_count, negative_count + 1)
              else (positive_count + 1, negative_count)))
    /\ (~ negation_holds (tokens lower review) i word ->
        counts_after (tokens lower review) (S i)
        = Ok (if any_startswith word positive_words
              then (positive_count + 1, negative_count)
              else (positive_count, negative_count + 1))).
Proof.
  intros Hi Hmatch. set (words := tokens lower review) in *.
  destruct (counts_after_total words i) as [[p n] Hc].
  exists p, n. split; [exact Hc|].
  rewrite (counts_after_S words i word Hi), Hc. cbn [bind].
  destruct (loop_body_spec words i word (p, n) Hi) as [c' [Hl Hr]].
  rewrite Hl. unfold round in Hr.
  destruct (any_startswith word positive_words).
  - destruct Hr as [Hneg Hpos].
    split; intros H; f_equal; auto.
  - destruct (any_startswith word negative_words).
    + destruct Hr as [Hneg Hpos].
      split; intros H; f_equal; auto.
    + destruct Hmatch; discriminate.
Qed.

Lemma negation_inverts_contribution_witness :
  exists positive_count negative_count,
    counts_after (tokens lower_basic (u "Не хорошо")) 1
      = Ok (positive_count, negative_count)
    /\ (negation_holds (tokens lower_basic (u "Не хорошо")) 1 (u "хорошо") ->
        counts_after (tokens lower_basic (u "Не хорошо")) 2
        = Ok (if any_startswith (u "хорошо") positive_words
              then (positive_count, negative_count + 1)
              else (positive_count + 1, negative_count)))
    /\ (~ negation_holds (tokens lower_basic (u "Не хорошо")) 1 (u "хорошо") ->
        counts_after (tokens lower_basic (u "Не хорошо")) 2
        = Ok (if any_startswith (u "хорошо") positive_words
              then (positive_count + 1, negative_count)
              else (positive_count, negative_count + 1))).
Proof.
  apply (negation_inverts_contribution lower_basic (u "Не хорошо") 1
           (u "хорошо")).
  - reflexivity.
  - left. reflexivity.
Defined.

(** C2: for every input the label is "positive" exactly when
    [positive_count > negative_count] once all tokens are processed,
    "negative" exactly when [negative_count > positive_count], and "neutral"
    otherwise, which covers both counters at 0 and every tie. *)
Theorem final_label (lower : str -> str) (review : str) :
  exists positive_count negative_count,
    count_words (tokens lower review) = Ok (positive_count, negative_count)
    /\ (sentiment_comment lower review = Ok positive
        <-> positive_count > negative_count)
    /\ (sentiment_comment lower review = Ok negative
        <-> negative_count > positive_count)
    /\ (sentiment_comment lower review = Ok neutral
        <-> ~ positive_count > negative_count
            /\ ~ negative_count > positive_count)
    /\ (positive_count = negative_count ->
        sentiment_comment lower review = Ok neutral).
Proof.
  destruct (count_words_total (tokens lower review)) as [[p n] Hc].
  exists p, n. split; [exact Hc|].
  unfold sentiment_comment. rewrite Hc. simpl.
  destruct labels_distinct as [Hpn [Hpu Hnu]].
  destruct (Z.gtb_spec p n) as [H1|H1];
    [|destruct (Z.gtb_spec n p) as [H2|H2]].
  all: repeat split; intros; try lia; try reflexivity.
  all: try match goal with
           | H : Ok _ = Ok _ |- _ => injection H as H; congruence
           end.
  all: try match goal with H : _ /\ _ |- _ => destruct H; lia end.
Qed.

(** C3: for every string, the empty one included, [sentiment_comment]
    returns, raises nothing, and its value is exactly one of the three
    labels "positive", "negative" and "neutral". *)
Theorem sentiment_comment_total (lower : str -> str) (s : str) :
  (sentiment_comment lower s = Ok positive
   \/ sentiment_comment lower s = Ok negative
   \/ sentiment_comment lower s = Ok neutral)
  /\ positive <> negative /\ positive <> neutral /\ negative <> neutral.
Proof.
  split; [|exact labels_distinct].
  unfold sentiment_comment.
  destruct (count_words_total (tokens lower s)) as [[p n] Hc].
  rewrite Hc. simpl.
  destruct (p >? n); [auto|]. destruct (n >? p); auto.
Qed.

(** C4: an input that is empty or made of white space only has no token
    and is classified "neutral"; lower-casing is any function that keeps a
    string of white space one. *)
Theorem blank_input_neutral (lower : str -> str) (s : str) :
  (forall b, blank b -> blank (lower b)) ->
  blank s ->
  tokens lower s = [] /\ sentiment_comment lower s = Ok neutral.
Proof.
  intros Hlower Hs.
  assert (Ht : tokens lower s = [])
    by (apply split_from_blank, Hlower, Hs).
  split; [exact Ht|].
  unfold sentiment_comment. rewrite Ht. reflexivity.
Qed.

Lemma blank_input_neutral_witness :
  tokens lower_basic [32; 9; 10; 160; 8195]%N = []
  /\ sentiment_comment lower_basic [32; 9; 10; 160; 8195]%N = Ok neutral.
Proof.
  apply (blank_input_neutral lower_basic [32; 9; 10; 160; 8195]%N).
  - exact lower_basic_blank.
  - repeat constructor.
Defined.

(** C10: a token that starts with the negative stem "ненавиж" has "не" as
    its first two characters, so negation holds for it and its round adds
    one to [positive_count] and leaves [negative_count]; the input
    "ненавижу" alone is classified "positive". *)
Theorem nenavizh_counts_positive (lower : str -> str) :
  (forall review i word,
      nth_error (tokens lower review) i = Some word ->
      startswith word nenavizh = true ->
      firstn 2 word = ne
      /\ negation_holds (tokens lower review) i word
      /\ exists positive_count negative_count,
          counts_after (tokens lower review) i
            = Ok (positive_count, negative_count)
          /\ counts_after (tokens lower review) (S i)
            = Ok (positive_count + 1, negative_count))
  /\ (lower nenavizhu = nenavizhu ->
      sentiment_comment lower nenavizhu = Ok positive).
Proof.
  split.
  - intros review i word Hi Hstem.
    destruct (nenavizh_token word Hstem) as [Hne [Hpos Hneg]].
    assert (Hh : negation_holds (tokens lower review) i word)
      by (left; exact Hne).
    repeat split; try assumption.
    set (words := tokens lower review) in *.
    destruct (counts_after_total words i) as [[p n] Hc].
    exists p, n. split; [exact Hc|].
    rewrite (counts_after_S words i word Hi), Hc. cbn [bind].
    destruct (loop_body_spec words i word (p, n) Hi) as [c' [Hl Hr]].
    rewrite Hl. unfold round in Hr. rewrite Hpos, Hneg in Hr.
    destruct Hr as [Hr _]. rewrite (Hr Hh). reflexivity.
  - intros Hfix. unfold sentiment_comment, tokens. rewrite Hfix.
    reflexivity.
Qed.

Lemma nenavizh_counts_positive_witness :
  (firstn 2 nenavizhu = ne
   /\ negation_holds (tokens lower_basic (u "я ненавижу")) 1 nenavizhu
   /\ exists positive_count negative_count,
       counts_after (tokens lower_basic (u "я ненавижу")) 1
         = Ok (positive_count, negative_count)
       /\ counts_after (tokens lower_basic (u "я ненавижу")) 2
         = Ok (positive_count + 1, negative_count))
  /\ sentiment_comment lower_basic nenavizhu = Ok positive.
Proof.
  destruct (nenavizh_counts_positive lower_basic) as [Htoken Hone].
  split.
  - apply (Htoken (u "я ненавижу") 1%nat nenavizhu); reflexivity.
  - apply Hone. reflexivity.
Defined.

(** ** The store: ordered selection *)

Lemma insert_by_id_perm (r : Review) (l : list Review) :
  Permutation (insert_by_id r l) (r :: l).
Proof.
  induction l as [|x l IH]; simpl; [reflexivity|].
  destruct (id r <=? id x); [reflexivity|].
  rewrite IH. apply perm_swap.
Qed.

Lemma order_by_id_perm (l : list Review) : Permutation (order_by_id l) l.
Proof.
  induction l as [|x l IH]; simpl; [reflexivity|].
  rewrite insert_by_id_perm. constructor. exact IH.
Qed.

Lemma insert_by_id_sorted (r : Review) (l : list Review) :
  StronglySorted id_le l -> StronglySorted id_le (insert_by_id r l).
Proof.
  induction 1 as [|x l Hs IH Hx]; simpl.
  - repeat constructor.
  - destruct (Z.leb_spec (id r) (id x)) as [Hle|Hgt].
    + constructor; [constructor; assumption|].
      constructor; [exact Hle|].
      apply Forall_impl with (2 := Hx). unfold id_le. intros; lia.
    + constructor; [exact IH|].
      apply (Permutation_Forall (x := r :: l));
        [symmetry; apply insert_by_id_perm|].
      constructor; [unfold id_le; lia | exact Hx].
Qed.

Lemma order_by_id_sorted (l : list Review) :
  StronglySorted id_le (order_by_id l).
Proof.
  induction l as [|x l IH]; simpl; [constructor|].
  apply insert_by_id_sorted, IH.
Qed.

Lemma sorted_nodup_strict (l : list Review) :
  StronglySorted id_le l -> NoDup (map id l) -> StronglySorted id_lt l.
Proof.
  induction 1 as [|x l Hs IH Hx]; simpl; intros Hnd; [constructor|].
  inversion Hnd as [|? ? Hnotin Hnd']; subst.
  constructor; [apply IH, Hnd'|].
  rewrite Forall_forall in Hx |- *. intros y Hy.
  specialize (Hx y Hy). unfold id_le, id_lt in *.
  assert (id x <> id y)
    by (intros Heq; apply Hnotin; rewrite Heq; apply in_map, Hy).
  lia.
Qed.

Lemma filter_keeps_distinct_ids (keep : Review -> bool) (l : list Review) :
  NoDup (map id l) -> NoDup (map id (filter keep l)).
Proof.
  intros Hnd. induction l as [|x l IH]; simpl in *; [exact Hnd|].
  apply NoDup_cons_iff in Hnd. destruct Hnd as [Hfresh Hrest].
  destruct (keep x); simpl; [|exact (IH Hrest)].
  apply NoDup_cons_iff. split; [|exact (IH Hrest)].
  intros Hin. apply Hfresh.
  apply in_map_iff in Hin. destruct Hin as [y [Hy Hin]].
  apply filter_In in Hin. rewrite <- Hy. apply in_map, Hin.
Qed.

Lemma where_clause_spec (param : option str) (r : Review) :
  where_clause param r = true <->
  match param with
  | Some s => sentiment r = s
  | None => True
  end.
Proof.
  destruct param as [s|]; simpl; [apply str_eqb_eq | tauto].
Qed.

Lemma filter_no_where (l : list Review) : filter (where_clause None) l = l.
Proof.
  induction l as [|x l IH]; simpl; [reflexivity | rewrite IH; reflexivity].
Qed.

Lemma sql_select_spec (t : table) (param : option str) :
  NoDup (ids t) ->
  StronglySorted id_lt (sql_select t param)
  /\ Permutation (sql_select t param) (filter (where_clause param) (rows t))
  /\ forall r, In r (sql_select t param) <->
               In r (rows t) /\ match param with
                                | Some s => sentiment r = s
                                | None => True
                                end.
Proof.
  intros Hnd. unfold sql_select.
  set (l := filter (where_clause param) (rows t)).
  assert (Hperm : Permutation (order_by_id l) l) by apply order_by_id_perm.
  split; [|split].
  - apply sorted_nodup_strict; [apply order_by_id_sorted|].
    apply (Permutation_NoDup (l := map id l)).
    + apply Permutation_map. symmetry. exact Hperm.
    + apply filter_keeps_distinct_ids, Hnd.
  - exact Hperm.
  - intros r. rewrite <- where_clause_spec. unfold l in *.
    rewrite <- filter_In. split; apply Permutation_in;
      [exact Hperm | symmetry; exact Hperm].
Qed.

(** ** The store: insertion and ids *)

Lemma max_id_upper (t : table) : Forall (fun x => x <= max_id t) (ids t).
Proof.
  unfold max_id. induction (ids t) as [|x l IH]; simpl; constructor.
  - lia.
  - apply Forall_impl with (2 := IH). intros; lia.
Qed.

Lemma sql_insert_Ok (t t' : table) (tx se cr : option str) (rowid : Z) :
  sql_insert t tx se cr = Ok (rowid, t') ->
  exists tx' se' cr',
    tx = Some tx' /\ se = Some se' /\ cr = Some cr'
    /\ sentiment_check se' = true
    /\ rowid = Z.max (seq t) (max_id t) + 1
    /\ rowid <= MAX_ROWID
    /\ t' = {| rows := rows t ++ [ {| id := rowid; sentiment := se';
                                      text := tx'; created_at := cr' |} ];
               seq := rowid |}.
Proof.
  unfold sql_insert. intros H.
  destruct (Z.geb_spec (Z.max (seq t) (max_id t)) MAX_ROWID) as [|Hlt];
    [discriminate|].
  destruct tx as [tx'|], se as [se'|], cr as [cr'|]; try discriminate.
  destruct (sentiment_check se') eqn:Hck; cbn [negb] in H; [|discriminate].
  injection H as <- <-.
  exists tx', se', cr'. do 3 (split; [reflexivity|]).
  split; [exact Hck|]. split; [reflexivity|].
  split; [lia | reflexivity].
Qed.

Lemma sql_insert_fresh (t t' : table) (tx se cr : option str) (rowid : Z) :
  sql_insert t tx se cr = Ok (rowid, t') ->
  seq t < rowid
  /\ Forall (fun x => x < rowid) (ids t)
  /\ ids t' = ids t ++ [rowid]
  /\ seq t' = rowid.
Proof.
  intros H. apply sql_insert_Ok in H.
  destruct H as [tx' [se' [cr' [_ [_ [_ [_ [Hid [_ ->]]]]]]]]].
  repeat split.
  - lia.
  - apply Forall_impl with (2 := max_id_upper t). intros; lia.
  - unfold ids. simpl. rewrite map_app. reflexivity.
Qed.

Lemma sql_insert_nodup (t t' : table) (tx se cr : option str) (rowid : Z) :
  sql_insert t tx se cr = Ok (rowid, t') ->
  NoDup (ids t) -> NoDup (ids t').
Proof.
  intros H Hnd. destruct (sql_insert_fresh _ _ _ _ _ _ H) as [_ [Hlt [-> _]]].
  apply NoDup_app; [exact Hnd | repeat constructor; intros [] |].
  intros x Hx [Heq|[]]. rewrite Forall_forall in Hlt.
  specialize (Hlt x Hx). lia.
Qed.

Lemma insert_all_increasing (values : list (option str * option str * option str)) :
  forall t,
    StronglySorted Z.lt (fst (insert_all t values))
    /\ Forall (fun x => seq t < x) (fst (insert_all t values))
    /\ seq t <= seq (snd (insert_all t values)).
Proof.
  induction values as [|[[tx se] cr] values IH]; intros t; simpl.
  - repeat split; try constructor. lia.
  - destruct (sql_insert t tx se cr) as [[rowid t']|e] eqn:Hins;
      [|apply IH].
    destruct (sql_insert_fresh _ _ _ _ _ _ Hins) as [Hseq [_ [_ Hseq']]].
    destruct (IH t') as [Hs [Hall Hle]].
    destruct (insert_all t' values) as [l t'']; simpl in *.
    rewrite Hseq' in *.
    repeat split.
    + constructor; [exact Hs | exact Hall].
    + constructor; [exact Hseq|].
      apply Forall_impl with (2 := Hall). intros; lia.
    + lia.
Qed.

(** ** Trimming *)

Lemma lstrip_hd (s : str) (c : char) :
  hd_error (lstrip s) = Some c -> isspace c = false.
Proof.
  induction s as [|x s IH]; simpl; [discriminate|].
  destruct (isspace x) eqn:Hx; [exact IH|].
  simpl. intros [= <-]. exact Hx.
Qed.

Lemma lstrip_suffix (s : str) : exists ws, s = ws ++ lstrip s.
Proof.
  induction s as [|x s [ws IH]]; simpl; [exists []; reflexivity|].
  destruct (isspace x).
  - exists (x :: ws). simpl. f_equal. exact IH.
  - exists []. reflexivity.
Qed.

Lemma rstrip_prefix (s : str) : exists ws, s = rstrip s ++ ws.
Proof.
  unfold rstrip. destruct (lstrip_suffix (rev s)) as [ws H].
  exists (rev ws). rewrite <- rev_app_distr, <- H, rev_involutive.
  reflexivity.
Qed.

Lemma strip_trimmed (s : str) : trimmed (strip s).
Proof.
  unfold trimmed, strip. split; intros c Hc.
  - destruct (rstrip_prefix (lstrip s)) as [ws Hws].
    apply (lstrip_hd s). rewrite Hws.
    destruct (rstrip (lstrip s)); [discriminate | exact Hc].
  - unfold rstrip in Hc. rewrite rev_involutive in Hc.
    exact (lstrip_hd _ _ Hc).
Qed.

Lemma lstrip_fix (s : str) :
  (forall c, hd_error s = Some c -> isspace c = false) -> lstrip s = s.
Proof.
  destruct s as [|x s]; simpl; [reflexivity|].
  intros H. rewrite (H x eq_refl). reflexivity.
Qed.

Lemma trimmed_strip_fix (s : str) : trimmed s -> strip s = s.
Proof.
  intros [Hhd Hlast]. unfold strip, rstrip.
  rewrite (lstrip_fix s Hhd), (lstrip_fix (rev s) Hlast).
  apply rev_involutive.
Qed.

Lemma strip_idempotent (s : str) : strip (strip s) = strip s.
Proof. apply trimmed_strip_fix, strip_trimmed. Qed.

(** ** The routes *)

Lemma existsb_str_eqb (s : str) (l : list str) :
  existsb (str_eqb s) l = true <-> In s l.
Proof.
  rewrite existsb_exists. split.
  - intros [x [Hx Heq]]. apply str_eqb_eq in Heq. subst. exact Hx.
  - intros H. exists s. split; [exact H | apply str_eqb_refl].
Qed.

Lemma sentiment_check_spec (s : str) :
  sentiment_check s = true <-> s = positive \/ s = negative \/ s = neutral.
Proof.
  unfold sentiment_check. rewrite existsb_str_eqb. simpl.
  intuition congruence.
Qed.

Lemma get_reviews_valid (lower : str -> str) (arg : option str) (d : table) :
  In (normalised lower arg) [positive; negative; neutral; []] ->
  serve (get_reviews lower arg) d
  = (JsonList200 (sql_select d (param_of (normalised lower arg))), d,
     [SELECT (param_of (normalised lower arg))]).
Proof.
  intros H.
  unfold serve, get_reviews, get_reviews_try.
  fold (normalised lower arg).
  destruct H as [H|[H|[H|[H|[]]]]]; rewrite <- H; reflexivity.
Qed.

Lemma get_reviews_invalid (lower : str -> str) (arg : option str) (d : table) :
  ~ In (normalised lower arg) [positive; negative; neutral; []] ->
  serve (get_reviews lower arg) d = (Error400 InvalidSentiment, d, []).
Proof.
  intros H. rewrite <- existsb_str_eqb in H.
  apply not_true_is_false in H.
  unfold serve, get_reviews, get_reviews_try.
  fold (normalised lower arg). rewrite H. reflexivity.
Qed.

Lemma add_review_cases (lower : str -> str) (body : option json) (now : str)
  (d d' : table) (resp : response) (log : list statement) :
  serve (add_review lower body now) d = (resp, d', log) ->
  (exists e, resp = Error400 e /\ d' = d)
  \/ exists items s label rowid,
      body = Some (JObject items)
      /\ dict_get items text_key = Some (JString s)
      /\ sentiment_comment lower (strip s) = Ok label
      /\ sql_insert d (Some (strip s)) (Some label) (Some now)
         = Ok (rowid, d')
      /\ resp = Json200 {| id := rowid; sentiment := label;
                           text := strip s; created_at := now |}
      /\ log = [INSERT (strip s) label now].
Proof.
  unfold serve, add_review, add_review_try.
  unfold io_bind, io_lift, io_raise, io_ret, execute_insert, commit, get_db,
    close_connection.
  intros H.
  destruct body as [req|]; cbn [disk g_database executed] in H;
    [|injection H as <- <- <-; left; eauto].
  destruct req as [| | | s | l | items];
    cbn [contains_text getitem_text negb] in H;
    try (injection H as <- <- <-; left; eauto; fail).
  - destruct (str_contains s text_key); cbn [negb] in H;
      injection H as <- <- <-; left; eauto.
  - destruct (existsb is_text_string l); cbn [negb] in H;
      injection H as <- <- <-; left; eauto.
  - destruct (dict_get items text_key) as [v|] eqn:Hget; cbn [negb] in H;
      [|injection H as <- <- <-; left; eauto].
    destruct v as [| | | s | |]; cbn [strip_value] in H;
      try (injection H as <- <- <-; left; eauto; fail).
    destruct (sentiment_comment lower (strip s)) as [label|e] eqn:Hlabel;
      [|injection H as <- <- <-; left; eauto].
    cbn [io_bind disk g_database executed] in H.
    destruct (encodable (strip s) && encodable label && encodable now);
      cbn [negb] in H; [|injection H as <- <- <-; left; eauto].
    destruct (sql_insert d (Some (strip s)) (Some label) (Some now))
      as [[rowid t']|e] eqn:Hins; cbn [disk g_database executed app] in H;
      injection H as <- <- <-; [|left; eauto].
    right. exists items, s, label, rowid. repeat split; auto.
Qed.

Lemma sample_table_nodup : NoDup (ids sample_table).
Proof.
  unfold ids, sample_table; simpl.
  repeat constructor; simpl; intuition discriminate.
Qed.

Lemma empty_table_nodup : NoDup (ids empty_table).
Proof. constructor. Qed.

(** Every request leaves the ids of the table distinct. *)
Lemma add_review_nodup (lower : str -> str) (body : option json) (now : str)
  (d d' : table) (resp : response) (log : list statement) :
  serve (add_review lower body now) d = (resp, d', log) ->
  NoDup (ids d) -> NoDup (ids d').
Proof.
  intros H Hnd. apply add_review_cases in H.
  destruct H as [[e [_ ->]]|[items [s [label [rowid [_ [_ [_ [Hins _]]]]]]]]].
  - exact Hnd.
  - exact (sql_insert_nodup _ _ _ _ _ _ Hins Hnd).
Qed.

(** ** Listing *)

(** C5: in every state of the table, whose ids are distinct as its primary
    key has them, the list query returns exactly the reviews whose stored
    sentiment equals the filter, in strictly ascending order of id, and
    every review, in the same order, when there is no filter; the route
    answers a valid [sentiment] parameter with that list. *)
Theorem list_filtered_ascending (lower : str -> str) (d : table) :
  NoDup (ids d) ->
  (forall param,
      StronglySorted id_lt (sql_select d param)
      /\ Permutation (sql_select d param)
           (filter (where_clause param) (rows d))
      /\ forall r, In r (sql_select d param) <->
                   In r (rows d) /\ match param with
                                    | Some s => sentiment r = s
                                    | None => True
                                    end)
  /\ Permutation (sql_select d None) (rows d)
  /\ forall arg,
      In (normalised lower arg) [positive; negative; neutral; []] ->
      serve (get_reviews lower arg) d
      = (JsonList200 (sql_select d (param_of (normalised lower arg))), d,
         [SELECT (param_of (normalised lower arg))]).
Proof.
  intros Hnd. split; [|split].
  - intros param. exact (sql_select_spec d param Hnd).
  - destruct (sql_select_spec d None Hnd) as [_ [Hperm _]].
    rewrite Hperm, filter_no_where. reflexivity.
  - intros arg Harg. exact (get_reviews_valid lower arg d Harg).
Qed.

Lemma list_filtered_ascending_witness :
  StronglySorted id_lt (sql_select sample_table (Some positive))
  /\ Permutation (sql_select sample_table None) (rows sample_table)
  /\ serve (get_reviews lower_basic (Some positive)) sample_table
     = (JsonList200 (sql_select sample_table (Some positive)), sample_table,
        [SELECT (Some positive)]).
Proof.
  destruct (list_filtered_ascending lower_basic sample_table
              sample_table_nodup) as [Hstore [Hall Hroute]].
  split; [apply (Hstore (Some positive))|].
  split; [exact Hall|].
  apply (Hroute (Some positive)). left. reflexivity.
Defined.

(** C6, as the route has it: when the [sentiment] parameter, once stripped
    of surrounding white space and lower-cased, is none of "positive",
    "negative", "neutral" and is not empty, the response is 400 with the
    error object, no statement is executed and the table is unchanged. *)
Theorem invalid_filter_rejected
  (lower : str -> str) (arg : option str) (d : table) :
  normalised lower arg <> positive ->
  normalised lower arg <> negative ->
  normalised lower arg <> neutral ->
  normalised lower arg <> [] ->
  serve (get_reviews lower arg) d = (Error400 InvalidSentiment, d, []).
Proof.
  intros H1 H2 H3 H4. apply get_reviews_invalid. simpl.
  intuition congruence.
Qed.

Lemma invalid_filter_rejected_witness :
  serve (get_reviews lower_basic (Some (u "good"))) sample_table
  = (Error400 InvalidSentiment, sample_table, []).
Proof.
  apply (invalid_filter_rejected lower_basic (Some (u "good")) sample_table);
    intros H; vm_compute in H; discriminate.
Defined.

(** The parameter " POSITIVE " is none of the three exact strings and is not
    empty, yet the route answers it with the list of positive reviews. *)
Lemma raw_filter_rejected_counterexample :
  ~ (forall (d : table) (v : str),
        v <> positive -> v <> negative -> v <> neutral -> v <> [] ->
        exists e,
          serve (get_reviews lower_basic (Some v)) d = (Error400 e, d, [])).
Proof.
  intros H.
  destruct (H sample_table (u " POSITIVE ")) as [e He];
    try (intros Heq; vm_compute in Heq; discriminate).
  vm_compute in He. discriminate.
Qed.

(** ** Writing *)

Lemma add_review_missing_text (lower : str -> str)
  (items : list (str * json)) (now : str) (d : table) :
  dict_get items text_key = None ->
  serve (add_review lower (Some (JObject items)) now) d
  = (Error400 MissingText, d, []).
Proof.
  intros H. unfold serve, add_review, add_review_try, io_bind, io_lift.
  cbn [contains_text]. rewrite H. reflexivity.
Qed.

(** C7, as the route has it: a review stored by POST /reviews carries the
    text of the request stripped of white space at both ends, which may be
    the empty string, and its sentiment is the label of that stripped text;
    a request with no [text] attribute, or with none that is a string, gets
    a 400 response and leaves the table as it was. *)
Theorem persisted_text_trimmed
  (lower : str -> str) (body : option json) (now : str)
  (d d' : table) (resp : response) (log : list statement) :
  serve (add_review lower body now) d = (resp, d', log) ->
  (forall r, resp = Json200 r ->
     (exists items s,
         body = Some (JObject items)
         /\ dict_get items text_key = Some (JString s)
         /\ text r = strip s)
     /\ trimmed (text r)
     /\ strip (text r) = text r
     /\ sentiment_comment lower (text r) = Ok (sentiment r)
     /\ rows d' = rows d ++ [r])
  /\ (forall e, resp = Error400 e -> d' = d)
  /\ (forall items, body = Some (JObject items) ->
      dict_get items text_key = None ->
      resp = Error400 MissingText /\ d' = d /\ log = [])
  /\ ((forall items s, body = Some (JObject items) ->
                       dict_get items text_key <> Some (JString s)) ->
      exists e, resp = Error400 e /\ d' = d).
Proof.
  intros H. pose proof (add_review_cases _ _ _ _ _ _ _ H) as Hcases.
  split; [|split; [|split]].
  - intros r ->.
    destruct Hcases as [[e [He _]]|
                        [items [s [label [rowid [Hb [Hg [Hl [Hi [Hr _]]]]]]]]]];
      [discriminate|].
    injection Hr as ->. cbn [text sentiment].
    split; [exists items, s; auto|].
    split; [apply strip_trimmed|].
    split; [apply strip_idempotent|].
    split; [exact Hl|].
    apply sql_insert_Ok in Hi.
    destruct Hi as [tx [se [cr [[= <-] [[= <-] [[= <-] [_ [_ [_ ->]]]]]]]]].
    reflexivity.
  - intros e ->.
    destruct Hcases as [[e' [_ Hd]]|
                        [items [s [label [rowid [_ [_ [_ [_ [Hr _]]]]]]]]]];
      [exact Hd | discriminate].
  - intros items -> Hnone.
    rewrite (add_review_missing_text lower items now d Hnone) in H.
    injection H as <- <- <-. auto.
  - intros Hno.
    destruct Hcases as [Herr|[items [s [_ [_ [Hb [Hg _]]]]]]];
      [exact Herr|].
    exfalso. exact (Hno items s Hb Hg).
Qed.

Lemma persisted_text_trimmed_witness :
  exists r d',
    serve (add_review lower_basic
             (Some (JObject [(text_key, JString (u "  Не люблю  "))]))
             sample_now) sample_table
    = (Json200 r, d', [INSERT (u "Не люблю") negative sample_now])
    /\ trimmed (text r)
    /\ sentiment_comment lower_basic (text r) = Ok (sentiment r)
    /\ rows d' = rows sample_table ++ [r].
Proof.
  eexists. eexists. split; [vm_compute; reflexivity|].
  pose proof (persisted_text_trimmed lower_basic
                (Some (JObject [(text_key, JString (u "  Не люблю  "))]))
                sample_now sample_table _ _ _ eq_refl) as [Hok _].
  destruct (Hok _ eq_refl) as [_ [Htrim [_ [Hlabel Hrows]]]].
  split; [exact Htrim|]. split; [exact Hlabel | exact Hrows].
Defined.

(** A request whose text is two spaces is answered 200 and its review is
    stored with the empty text. *)
Lemma persisted_text_nonempty_counterexample :
  ~ (forall (d d' : table) (body : option json) (now : str)
            (resp : response) (log : list statement),
        serve (add_review lower_basic body now) d = (resp, d', log) ->
        forall r, In r (rows d') -> ~ In r (rows d) -> text r <> []).
Proof.
  intros H.
  apply (H empty_table _
           (Some (JObject [(text_key, JString [32; 32]%N)])) sample_now
           _ _ eq_refl
           {| id := 1; sentiment := neutral; text := [];
              created_at := sample_now |}).
  - left. reflexivity.
  - intros [].
  - reflexivity.
Qed.





(** C9: the id of a row is chosen by the INSERT itself, above every id the
    table holds and above every id it ever gave out, so no id is given
    twice; of two inserts that succeed one after the other the second gets
    the larger id, and the ids of any run of inserts are strictly
    increasing. *)
Theorem ids_strictly_increasing :
  (forall t tx se cr rowid t',
      sql_insert t tx se cr = Ok (rowid, t') ->
      seq t < rowid
      /\ Forall (fun x => x < rowid) (ids t)
      /\ ids t' = ids t ++ [rowid]
      /\ seq t' = rowid
      /\ (NoDup (ids t) -> NoDup (ids t')))
  /\ (forall t tx1 se1 cr1 id1 t1 tx2 se2 cr2 id2 t2,
        sql_insert t tx1 se1 cr1 = Ok (id1, t1) ->
        sql_insert t1 tx2 se2 cr2 = Ok (id2, t2) ->
        id1 < id2)
  /\ (forall t values,
        StronglySorted Z.lt (fst (insert_all t values))
        /\ Forall (fun x => seq t < x) (fst (insert_all t values)))
  /\ (forall lower d body1 now1 r1 d1 log1 body2 now2 r2 d2 log2,
        serve (add_review lower body1 now1) d = (Json200 r1, d1, log1) ->
        serve (add_review lower body2 now2) d1 = (Json200 r2, d2, log2) ->
        id r1 < id r2).
Proof.
  split; [|split; [|split]].
  - intros t tx se cr rowid t' H.
    destruct (sql_insert_fresh _ _ _ _ _ _ H) as [Ha [Hb [Hc Hd]]].
    repeat split; try assumption.
    exact (sql_insert_nodup _ _ _ _ _ _ H).
  - intros t tx1 se1 cr1 id1 t1 tx2 se2 cr2 id2 t2 Hone Htwo.
    destruct (sql_insert_fresh _ _ _ _ _ _ Hone) as [_ [_ [_ Hseq]]].
    destruct (sql_insert_fresh _ _ _ _ _ _ Htwo) as [Hlt _].
    lia.
  - intros t values.
    destruct (insert_all_increasing values t) as [Ha [Hb _]]. auto.
  - intros lower d body1 now1 r1 d1 log1 body2 now2 r2 d2 log2 Hone Htwo.
    apply add_review_cases in Hone, Htwo.
    destruct Hone as [[e [He _]]|
                      [i1 [s1 [l1 [k1 [_ [_ [_ [Hins1 [Hr1 _]]]]]]]]]];
      [discriminate|].
    destruct Htwo as [[e [He _]]|
                      [i2 [s2 [l2 [k2 [_ [_ [_ [Hins2 [Hr2 _]]]]]]]]]];
      [discriminate|].
    injection Hr1 as ->. injection Hr2 as ->. cbn [id].
    destruct (sql_insert_fresh _ _ _ _ _ _ Hins1) as [_ [_ [_ Hseq]]].
    destruct (sql_insert_fresh _ _ _ _ _ _ Hins2) as [Hlt _].
    lia.
Qed.

Lemma ids_strictly_increasing_witness :
  sql_insert sample_table (Some (u "кайф")) (Some positive)
    (Some sample_now) = Ok (4, sample_table_4)
  /\ sql_insert sample_table_4 (Some (u "ужас")) (Some negative)
       (Some sample_now) = Ok (5, sample_table_5)
  /\ 4 < 5.
Proof.
  assert (H1 : sql_insert sample_table (Some (u "кайф")) (Some positive)
                 (Some sample_now) = Ok (4, sample_table_4))
    by reflexivity.
  assert (H2 : sql_insert sample_table_4 (Some (u "ужас")) (Some negative)
                 (Some sample_now) = Ok (5, sample_table_5))
    by reflexivity.
  split; [exact H1|]. split; [exact H2|].
  destruct ids_strictly_increasing as [_ [Htwo _]].
  exact (Htwo _ _ _ _ _ _ _ _ _ _ _ H1 H2).
Defined.

(** ** More on the classifier *)

Lemma split_from_solid (s cur : str) :
  solid cur ->
  Forall (fun w => w <> [] /\ solid w) (split_from cur s)
  /\ concat (split_from cur s)
     = rev cur ++ filter (fun c => negb (isspace c)) s.
Proof.
  revert cur. induction s as [|c s IH]; intros cur Hcur; simpl.
  - destruct cur as [|x cur]; simpl; [split; [constructor | reflexivity]|].
    split.
    + constructor; [|constructor]. split.
      * intros H. apply (f_equal (@length char)) in H.
        rewrite length_app in H. simpl in H. lia.
      * unfold solid. apply Forall_app. split.
        -- apply Forall_rev. inversion Hcur; assumption.
        -- constructor; [inversion Hcur; assumption | constructor].
    + rewrite !app_nil_r. reflexivity.
  - destruct (isspace c) eqn:Hc; simpl.
    + destruct (IH [] (Forall_nil _)) as [Hall Hcat]. simpl in Hcat.
      destruct cur as [|x cur]; simpl; [rewrite Hcat; auto|].
      split.
      * constructor; [|exact Hall]. split.
        -- intros H. apply (f_equal (@length char)) in H.
           rewrite length_app in H. simpl in H. lia.
        -- unfold solid. apply Forall_app. split.
           ++ apply Forall_rev. inversion Hcur; assumption.
           ++ constructor; [inversion Hcur; assumption | constructor].
      * rewrite Hcat. reflexivity.
    + destruct (IH (c :: cur)) as [Hall Hcat];
        [constructor; assumption|].
      split; [exact Hall|].
      rewrite Hcat. simpl. rewrite <- app_assoc. reflexivity.
Qed.

(** The tokens are the characters of the lower-cased text that are not white
    space, in order, cut into pieces none of which is empty or holds a white
    space character. *)
Theorem tokens_solid (lower : str -> str) (review : str) :
  Forall (fun w => w <> [] /\ solid w) (tokens lower review)
  /\ concat (tokens lower review)
     = filter (fun c => negb (isspace c)) (lower review).
Proof.
  unfold tokens, split.
  exact (split_from_solid (lower review) [] (Forall_nil _)).
Qed.

(** A rule for the loop: what holds of the counters before the first round
    and is kept by every round on a token of the list holds after the last
    round, and the loop raises nothing. *)
Lemma for_enumerate_invariant (words : list str)
  (I : nat -> Z * Z -> Prop) :
  (forall i word c c',
      nth_error words i = Some word ->
      I i c ->
      loop_body words (Z.of_nat i) word c = Ok c' ->
      I (S i) c') ->
  forall rest pre post c,
    words = pre ++ rest ++ post ->
    I (length pre) c ->
    exists c',
      for_enumerate words (Z.of_nat (length pre)) rest c = Ok c'
      /\ I (length pre + length rest)%nat c'.
Proof.
  intros Hstep.
  induction rest as [|word rest IH]; intros pre post c Hw Hc; simpl.
  - exists c. rewrite Nat.add_0_r. auto.
  - assert (Hi : nth_error words (length pre) = Some word).
    { rewrite Hw, nth_error_app2 by lia. rewrite Nat.sub_diag. reflexivity. }
    destruct (loop_body_spec words _ word c Hi) as [c1 [Hc1 _]].
    rewrite Hc1. cbn [bind].
    specialize (Hstep _ _ _ _ Hi Hc Hc1).
    replace (Z.of_nat (length pre) + 1)
      with (Z.of_nat (length (pre ++ [word])))
      by (rewrite length_app; simpl; lia).
    destruct (IH (pre ++ [word]) post c1) as [c' [Hc' HI]].
    + rewrite Hw, <- app_assoc. reflexivity.
    + rewrite length_app. simpl. rewrite Nat.add_1_r. exact Hstep.
    + exists c'. split; [exact Hc'|].
      rewrite length_app in HI. simpl in HI.
      replace (length pre + S (length rest))%nat
        with (length pre + 1 + length rest)%nat by lia.
      exact HI.
Qed.

Lemma count_words_invariant (words : list str) (I : nat -> Z * Z -> Prop) :
  (forall i word c c',
      nth_error words i = Some word ->
      I i c ->
      loop_body words (Z.of_nat i) word c = Ok c' ->
      I (S i) c') ->
  I 0%nat (0, 0) ->
  exists c, count_words words = Ok c /\ I (length words) c.
Proof.
  intros Hstep H0. unfold count_words.
  apply (for_enumerate_invariant words I Hstep words [] [] (0, 0));
    [simpl; rewrite app_nil_r; reflexivity | exact H0].
Qed.

Lemma loop_body_increment (words : list str) (i : Z) (word : str)
  (p n p' n' : Z) :
  loop_body words i word (p, n) = Ok (p', n') ->
  p <= p' /\ n <= n'
  /\ p' + n' = p + n + (if matches_stem word then 1 else 0).
Proof.
  unfold loop_body, matches_stem.
  destruct (any_startswith word positive_words); cbn [orb].
  - destruct (negation_test words i word) as [[|]|e]; cbn [bind];
      intros H; try discriminate H; injection H as <- <-; lia.
  - destruct (any_startswith word negative_words).
    + destruct (negation_test words i word) as [[|]|e]; cbn [bind];
        intros H; try discriminate H; injection H as <- <-; lia.
    + intros [= <- <-]. lia.
Qed.

Lemma count_words_sum (words : list str) :
  exists p n,
    count_words words = Ok (p, n)
    /\ 0 <= p /\ 0 <= n
    /\ p + n = Z.of_nat (length (filter matches_stem words)).
Proof.
  destruct (count_words_invariant words
              (fun k c => 0 <= fst c /\ 0 <= snd c
                          /\ fst c + snd c
                             = Z.of_nat (length (filter matches_stem
                                                   (firstn k words)))))
    as [[p n] [Hc HI]].
  - intros i word [p n] [p' n'] Hi [Hp [Hn Hsum]] Hbody.
    cbn [fst snd] in *.
    apply loop_body_increment in Hbody. destruct Hbody as [Hp' [Hn' Hs]].
    rewrite (firstn_snoc _ _ _ Hi), filter_app, length_app.
    cbn [filter]. destruct (matches_stem word); cbn [length]; lia.
  - cbn. lia.
  - exists p, n. rewrite firstn_all in HI. cbn [fst snd] in HI. tauto.
Qed.

(** Each token that starts with a stem adds one to exactly one counter and
    the others add nothing: the counters are never negative and their sum is
    the number of tokens that start with a stem. *)
Theorem counters_sum (lower : str -> str) (review : str) :
  exists positive_count negative_count,
    count_words (tokens lower review) = Ok (positive_count, negative_count)
    /\ 0 <= positive_count /\ 0 <= negative_count
    /\ positive_count + negative_count
       = Z.of_nat (length (filter matches_stem (tokens lower review)))
    /\ positive_count + negative_count
       <= Z.of_nat (length (tokens lower review)).
Proof.
  destruct (count_words_sum (tokens lower review)) as [p [n [Hc [Hp [Hn Hs]]]]].
  exists p, n. repeat split; try assumption.
  rewrite Hs. apply Nat2Z.inj_le, filter_length_le.
Qed.

Lemma no_stem_counts (words : list str) :
  (forall w, In w words -> matches_stem w = false) ->
  count_words words = Ok (0, 0).
Proof.
  intros Hnone.
  destruct (count_words_sum words) as [p [n [Hc [Hp [Hn Hs]]]]].
  assert (Hf : filter matches_stem words = []).
  { clear -Hnone. induction words as [|w l IH]; simpl; [reflexivity|].
    rewrite (Hnone w (or_introl eq_refl)). apply IH.
    intros x Hx. apply Hnone. right. exact Hx. }
  rewrite Hf in Hs. simpl in Hs.
  rewrite Hc. do 2 f_equal; lia.
Qed.

(** A text none of whose tokens starts with a stem is neutral. *)
Theorem no_stem_neutral (lower : str -> str) (review : str) :
  (forall w, In w (tokens lower review) -> matches_stem w = false) ->
  sentiment_comment lower review = Ok neutral.
Proof.
  intros H. unfold sentiment_comment.
  rewrite (no_stem_counts _ H). reflexivity.
Qed.

Lemma no_stem_neutral_witness :
  sentiment_comment lower_basic (u "Фильм как фильм") = Ok neutral.
Proof.
  apply (no_stem_neutral lower_basic (u "Фильм как фильм")).
  intros w Hw. vm_compute in Hw.
  repeat (destruct Hw as [<-|Hw]; [reflexivity|]). destruct Hw.
Defined.

Ltac stem_cases H :=
  unfold any_startswith, positive_words, negative_words in H;
  cbn [existsb] in H;
  repeat (apply orb_true_iff in H; destruct H as [H|H]);
  try discriminate H;
  apply startswith_prefix in H; destruct H as [? ->].

Lemma stems_disjoint (word : str) :
  any_startswith word positive_words = true ->
  any_startswith word negative_words = false.
Proof. intros H. stem_cases H; reflexivity. Qed.

(** No word starts with a positive stem and with a negative stem: the order
    of the two tests of the loop changes nothing. *)
Theorem stems_exclusive (word : str) :
  (any_startswith word positive_words = true ->
   any_startswith word negative_words = false)
  /\ (any_startswith word negative_words = true ->
      any_startswith word positive_words = false).
Proof.
  split; [exact (stems_disjoint word)|].
  intros H. destruct (any_startswith word positive_words) eqn:Hp;
    [|reflexivity].
  rewrite (stems_disjoint word Hp) in H. discriminate.
Qed.

Lemma stems_exclusive_witness :
  any_startswith (u "отличный") negative_words = false
  /\ any_startswith (u "отстойный") positive_words = false.
Proof.
  split.
  - apply (proj1 (stems_exclusive (u "отличный"))). reflexivity.
  - apply (proj2 (stems_exclusive (u "отстойный"))). reflexivity.
Defined.

Lemma ne_prefix_stems (word : str) :
  firstn 2 word = ne ->
  any_startswith word positive_words = false
  /\ any_startswith word negative_words = startswith word nenavizh.
Proof.
  destruct word as [|a [|b w]]; try discriminate.
  intros [= -> ->]. split; [reflexivity|].
  unfold any_startswith, negative_words, nenavizh.
  cbn [existsb startswith N.eqb Pos.eqb andb orb].
  apply orb_false_r.
Qed.

(** A token whose first two characters are "не" starts with a stem only if
    it starts with "ненавиж"; any other such token, "нехорошо" or "неплохо"
    say, starts with no stem and its round leaves the counters alone. *)
Theorem ne_prefixed_token (lower : str -> str) (review : str) (i : nat)
  (word : str) :
  nth_error (tokens lower review) i = Some word ->
  firstn 2 word = ne ->
  matches_stem word = startswith word nenavizh
  /\ (startswith word nenavizh = false ->
      counts_after (tokens lower review) (S i)
      = counts_after (tokens lower review) i).
Proof.
  intros Hi Hne. destruct (ne_prefix_stems word Hne) as [Hpos Hneg].
  split; [unfold matches_stem; rewrite Hpos, Hneg; reflexivity|].
  intros Hno. rewrite (counts_after_S _ _ _ Hi).
  destruct (counts_after_total (tokens lower review) i) as [[p n] Hc].
  rewrite Hc. cbn [bind]. unfold loop_body.
  rewrite Hpos, Hneg, Hno. reflexivity.
Qed.

Lemma ne_prefixed_token_witness :
  matches_stem (u "нехорошо") = startswith (u "нехорошо") nenavizh
  /\ (startswith (u "нехорошо") nenavizh = false ->
      counts_after (tokens lower_basic (u "очень нехорошо")) 2
      = counts_after (tokens lower_basic (u "очень нехорошо")) 1).
Proof.
  apply (ne_prefixed_token lower_basic (u "очень нехорошо") 1
           (u "нехорошо")); reflexivity.
Defined.

Lemma round_result (words : list str) (i : nat) (word : str)
  (c c' : Z * Z) :
  nth_error words i = Some word ->
  loop_body words (Z.of_nat i) word c = Ok c' ->
  round words i word c c'.
Proof.
  intros Hi Hbody.
  destruct (loop_body_spec words i word c Hi) as [c1 [Hc1 Hr]].
  rewrite Hbody in Hc1. injection Hc1 as <-. exact Hr.
Qed.

Lemma all_positive_counts (words : list str) :
  (forall w, In w words -> any_startswith w positive_words = true) ->
  count_words words = Ok (Z.of_nat (length words), 0).
Proof.
  intros Hall.
  destruct (count_words_invariant words (fun k c => c = (Z.of_nat k, 0)))
    as [c [Hc ->]]; [|reflexivity|exact Hc].
  intros i word c c' Hi -> Hbody.
  pose proof (round_result _ _ _ _ _ Hi Hbody) as Hr. unfold round in Hr.
  rewrite (Hall word (nth_error_In _ _ Hi)) in Hr.
  destruct Hr as [_ Hr]. rewrite Hr; [f_equal; lia|].
  intros [Hne|[j [_ Hj]]].
  - destruct (ne_prefix_stems word Hne) as [Hpos _].
    rewrite (Hall word (nth_error_In _ _ Hi)) in Hpos. discriminate.
  - specialize (Hall ne (nth_error_In _ _ Hj)). discriminate.
Qed.

Lemma all_negative_counts (words : list str) :
  (forall w, In w words ->
             any_startswith w negative_words = true
             /\ startswith w nenavizh = false) ->
  count_words words = Ok (0, Z.of_nat (length words)).
Proof.
  intros Hall.
  destruct (count_words_invariant words (fun k c => c = (0, Z.of_nat k)))
    as [c [Hc ->]]; [|reflexivity|exact Hc].
  intros i word c c' Hi -> Hbody.
  pose proof (round_result _ _ _ _ _ Hi Hbody) as Hr. unfold round in Hr.
  destruct (Hall word (nth_error_In _ _ Hi)) as [Hneg Hno].
  destruct (any_startswith word positive_words) eqn:Hpos;
    [rewrite (stems_disjoint word Hpos) in Hneg; discriminate|].
  rewrite Hneg in Hr.
  destruct Hr as [_ Hr]. rewrite Hr; [f_equal; lia|].
  intros [Hne|[j [_ Hj]]].
  - destruct (ne_prefix_stems word Hne) as [_ Hn].
    rewrite Hneg, Hno in Hn. discriminate.
  - destruct (Hall ne (nth_error_In _ _ Hj)) as [H _]. discriminate.
Qed.

(** A text with at least one token, each starting with a positive stem, is
    positive; a text with at least one token, each starting with a negative
    stem other than "ненавиж", is negative. *)
Theorem uniform_text_label (lower : str -> str) (review : str) :
  tokens lower review <> [] ->
  ((forall w, In w (tokens lower review) ->
              any_startswith w positive_words = true) ->
   sentiment_comment lower review = Ok positive)
  /\ ((forall w, In w (tokens lower review) ->
                 any_startswith w negative_words = true
                 /\ startswith w nenavizh = false) ->
      sentiment_comment lower review = Ok negative).
Proof.
  intros Hne.
  assert (Hlen : 0 < Z.of_nat (length (tokens lower review))).
  { destruct (tokens lower review); [contradiction | simpl; lia]. }
  split; intros Hall; unfold sentiment_comment.
  - rewrite (all_positive_counts _ Hall). cbn [bind label_of].
    destruct (Z.gtb_spec (Z.of_nat (length (tokens lower review))) 0);
      [reflexivity | lia].
  - rewrite (all_negative_counts _ Hall). cbn [bind label_of].
    destruct (Z.gtb_spec 0 (Z.of_nat (length (tokens lower review))));
      [lia|].
    destruct (Z.gtb_spec (Z.of_nat (length (tokens lower review))) 0);
      [reflexivity | lia].
Qed.

Lemma uniform_text_label_witness :
  sentiment_comment lower_basic (u "Отличный прекрасный классный")
  = Ok positive
  /\ sentiment_comment lower_basic (u "Ужасно плохо") = Ok negative.
Proof.
  split.
  - apply (proj1 (uniform_text_label lower_basic
                    (u "Отличный прекрасный классный")
                    ltac:(discriminate))).
    intros w Hw. vm_compute in Hw.
    repeat (destruct Hw as [<-|Hw]; [reflexivity|]). destruct Hw.
  - apply (proj2 (uniform_text_label lower_basic (u "Ужасно плохо")
                    ltac:(discriminate))).
    intros w Hw. vm_compute in Hw.
    repeat (destruct Hw as [<-|Hw]; [split; reflexivity|]). destruct Hw.
Defined.

Lemma negation_after_ne (word : str) (rest : list str) :
  negation_test (ne :: word :: rest) 1 word = Ok true.
Proof.
  unfold negation_test.
  destruct (str_eqb (firstn 2 word) ne); reflexivity.
Qed.

(** A text of two tokens, the word "не" and then a token that starts with
    a stem, gets the label opposite to the stem: negative for a positive
    stem, positive for a negative one. *)
Theorem negated_pair (lower : str -> str) (review : str) (word : str) :
  tokens lower review = [ne; word] ->
  (any_startswith word positive_words = true ->
   sentiment_comment lower review = Ok negative)
  /\ (any_startswith word negative_words = true ->
      sentiment_comment lower review = Ok positive).
Proof.
  intros Htok. unfold sentiment_comment, count_words. rewrite Htok.
  cbn [for_enumerate].
  replace (loop_body [ne; word] 0 ne (0, 0)) with (@Ok (Z * Z) (0, 0))
    by reflexivity.
  cbn [bind]. unfold loop_body.
  change (0 + 1) with 1. rewrite negation_after_ne. cbn [bind].
  split; intros H.
  - rewrite H. reflexivity.
  - destruct (any_startswith word positive_words) eqn:Hpos;
      [rewrite (stems_disjoint word Hpos) in H; discriminate|].
    rewrite H. reflexivity.
Qed.

Lemma negated_pair_witness :
  sentiment_comment lower_basic (u " Не люблю ") = Ok negative
  /\ sentiment_comment lower_basic (u "не плохо") = Ok positive.
Proof.
  split.
  - apply (proj1 (negated_pair lower_basic (u " Не люблю ") (u "люблю")
                    eq_refl)). reflexivity.
  - apply (proj2 (negated_pair lower_basic (u "не плохо") (u "плохо")
                    eq_refl)). reflexivity.
Defined.

(** ** More on the store *)



Lemma insert_by_id_front (r : Review) (l : list Review) :
  Forall (id_lt r) l -> insert_by_id r l = r :: l.
Proof.
  destruct l as [|x l]; simpl; [reflexivity|].
  intros H. inversion H as [|? ? Hx _]; subst. unfold id_lt in Hx.
  destruct (Z.leb_spec (id r) (id x)); [reflexivity | lia].
Qed.

Lemma order_by_id_sorted_fix (l : list Review) :
  StronglySorted id_lt l -> order_by_id l = l.
Proof.
  induction 1 as [|x l Hs IH Hx]; simpl; [reflexivity|].
  rewrite IH. apply insert_by_id_front, Hx.
Qed.

Lemma filter_sorted (keep : Review -> bool) (l : list Review) :
  StronglySorted id_lt l -> StronglySorted id_lt (filter keep l).
Proof.
  induction 1 as [|x l Hs IH Hx]; simpl; [constructor|].
  destruct (keep x); [|exact IH].
  constructor; [exact IH|].
  rewrite Forall_forall in Hx |- *. intros y Hy.
  apply filter_In in Hy. apply Hx, Hy.
Qed.

Lemma sql_select_ok (t : table) (param : option str) :
  table_ok t -> sql_select t param = filter (where_clause param) (rows t).
Proof.
  intros [Hs _]. unfold sql_select.
  apply order_by_id_sorted_fix, filter_sorted, Hs.
Qed.

Lemma sorted_ids_below (t : table) :
  StronglySorted id_lt (rows t) ->
  forall x, Forall (fun r => id r < x) (rows t) ->
            forall row, id row = x ->
                        StronglySorted id_lt (rows t ++ [row]).
Proof.
  intros Hs x Hlt row Hid.
  induction Hs as [|y l Hs IH Hy]; simpl.
  - repeat constructor.
  - inversion Hlt as [|? ? Hyx Hlt']; subst.
    constructor; [apply IH, Hlt'|].
    apply Forall_app. split; [exact Hy|].
    constructor; [unfold id_lt; lia | constructor].
Qed.

Lemma sql_insert_table_ok (t t' : table) (tx se cr : option str)
  (rowid : Z) :
  sql_insert t tx se cr = Ok (rowid, t') -> table_ok t -> table_ok t'.
Proof.
  intros H [Hs Hck].
  pose proof (sql_insert_fresh _ _ _ _ _ _ H) as [_ [Hlt _]].
  apply sql_insert_Ok in H.
  destruct H as [tx' [se' [cr' [_ [_ [_ [Hse [_ [_ ->]]]]]]]]].
  split; cbn [rows].
  - apply (sorted_ids_below t Hs rowid); [|reflexivity].
    unfold ids in Hlt. rewrite Forall_map in Hlt. exact Hlt.
  - apply Forall_app. split; [exact Hck|].
    constructor; [exact Hse | constructor].
Qed.

Lemma empty_table_ok : table_ok empty_table.
Proof. split; constructor. Qed.

(** In a table built by INSERT statements the rows already stand in order
    of id: the list query returns the matching rows in the order of their
    insertion. *)
Theorem select_insertion_order (t : table) (param : option str) :
  table_ok t ->
  sql_select t param = filter (where_clause param) (rows t)
  /\ sql_select t None = rows t.
Proof.
  intros Hok. split; [exact (sql_select_ok t param Hok)|].
  rewrite (sql_select_ok t None Hok). apply filter_no_where.
Qed.

Lemma sample_table_ok : table_ok sample_table.
Proof.
  split.
  - unfold sample_table, id_lt; cbn [rows].
    repeat constructor; cbn [id]; lia.
  - repeat constructor.
Qed.

Lemma select_insertion_order_witness :
  sql_select sample_table (Some positive)
  = filter (where_clause (Some positive)) (rows sample_table)
  /\ sql_select sample_table None = rows sample_table.
Proof.
  exact (select_insertion_order sample_table (Some positive)
           sample_table_ok).
Defined.

Lemma select_after_insert (t t' : table) (tx se cr : str) (rowid : Z)
  (param : option str) :
  table_ok t ->
  sql_insert t (Some tx) (Some se) (Some cr) = Ok (rowid, t') ->
  let row := {| id := rowid; sentiment := se; text := tx;
                created_at := cr |} in
  sql_select t' None = sql_select t None ++ [row]
  /\ sql_select t' param
     = sql_select t param ++ (if where_clause param row then [row] else []).
Proof.
  intros Hok Hins row.
  pose proof (sql_insert_table_ok _ _ _ _ _ _ Hins Hok) as Hok'.
  assert (Hrows : rows t' = rows t ++ [row]).
  { apply sql_insert_Ok in Hins.
    destruct Hins as [tx' [se' [cr' [[= <-] [[= <-] [[= <-] [_ [_ [_ ->]]]]]]]]].
    reflexivity. }
  rewrite !(sql_select_ok t' _ Hok'), !(sql_select_ok t _ Hok), Hrows.
  rewrite !filter_app. cbn [filter where_clause]. auto.
Qed.

(** Insert and list: after an INSERT that succeeded the unfiltered list is
    the former list followed by the new row; a filtered list is the former
    one followed by the new row when its sentiment is the filter, and the
    former one unchanged otherwise. *)
Theorem insert_then_select (t t' : table) (tx se cr : str) (rowid : Z)
  (param : option str) :
  table_ok t ->
  sql_insert t (Some tx) (Some se) (Some cr) = Ok (rowid, t') ->
  let row := {| id := rowid; sentiment := se; text := tx;
                created_at := cr |} in
  sql_select t' None = sql_select t None ++ [row]
  /\ sql_select t' param
     = sql_select t param ++ (if where_clause param row then [row] else []).
Proof.
  exact (select_after_insert t t' tx se cr rowid param).
Qed.

Lemma insert_then_select_witness :
  sql_select sample_table_4 None
  = sql_select sample_table None
    ++ [ {| id := 4; sentiment := positive; text := u "кайф";
            created_at := sample_now |} ]
  /\ sql_select sample_table_4 (Some negative)
     = sql_select sample_table (Some negative) ++ [].
Proof.
  exact (insert_then_select sample_table sample_table_4 (u "кайф") positive
           sample_now 4 (Some negative) sample_table_ok eq_refl).
Defined.

Lemma filter_by_label_partition (l : list Review) :
  Forall (fun r => sentiment_check (sentiment r) = true) l ->
  Permutation (filter (where_clause (Some positive)) l
               ++ filter (where_clause (Some negative)) l
               ++ filter (where_clause (Some neutral)) l) l.
Proof.
  induction 1 as [|x l Hx _ IH]; [constructor|].
  apply sentiment_check_spec in Hx.
  cbn [filter where_clause].
  destruct Hx as [Hx|[Hx|Hx]]; rewrite Hx;
    cbv [str_eqb positive negative neutral N.eqb Pos.eqb andb].
  - cbn [app]. constructor. exact IH.
  - symmetry. apply Permutation_cons_app. symmetry. exact IH.
  - symmetry. rewrite app_assoc. apply Permutation_cons_app.
    rewrite <- app_assoc. symmetry. exact IH.
Qed.

Lemma filter_by_other_label (s : str) (l : list Review) :
  sentiment_check s = false ->
  Forall (fun r => sentiment_check (sentiment r) = true) l ->
  filter (where_clause (Some s)) l = [].
Proof.
  intros Hs. induction 1 as [|x l Hx _ IH]; [reflexivity|].
  cbn [filter where_clause].
  destruct (str_eqb (sentiment x) s) eqn:Heq; [|exact IH].
  apply str_eqb_eq in Heq. congruence.
Qed.

(** In a table built by INSERT statements every row carries one of the
    three labels: the lists for "positive", "negative" and "neutral" share
    the rows among them, each row in exactly one, and the list for any
    other string is empty. *)
Theorem select_partition (t : table) :
  table_ok t ->
  Permutation (sql_select t (Some positive)
               ++ sql_select t (Some negative)
               ++ sql_select t (Some neutral)) (rows t)
  /\ forall s, sentiment_check s = false -> sql_select t (Some s) = [].
Proof.
  intros Hok. pose proof Hok as [_ Hck].
  rewrite !(sql_select_ok t _ Hok). split.
  - exact (filter_by_label_partition _ Hck).
  - intros s Hs. rewrite (sql_select_ok t _ Hok).
    exact (filter_by_other_label s _ Hs Hck).
Qed.

Lemma select_partition_witness :
  Permutation (sql_select sample_table (Some positive)
               ++ sql_select sample_table (Some negative)
               ++ sql_select sample_table (Some neutral))
    (rows sample_table)
  /\ sql_select sample_table (Some (u "mixed")) = [].
Proof.
  destruct (select_partition sample_table sample_table_ok) as [Hp Hother].
  split; [exact Hp|]. apply Hother. reflexivity.
Defined.

(** ** More on the routes *)

Lemma add_review_equation (lower : str -> str) (body : option json)
  (now : str) (d : table) :
  serve (add_review lower body now) d =
  match body with
  | None => (Error400 BadRequest, d, [])
  | Some req =>
    match contains_text req with
    | Raise e => (Error400 e, d, [])
    | Ok false => (Error400 MissingText, d, [])
    | Ok true =>
      match getitem_text req with
      | Raise e => (Error400 e, d, [])
      | Ok v =>
        match strip_value v with
        | Raise e => (Error400 e, d, [])
        | Ok review =>
          match sentiment_comment lower review with
          | Raise e => (Error400 e, d, [])
          | Ok label =>
            if negb (encodable review && encodable label && encodable now)
            then (Error400 UnicodeEncodeError, d,
                  [INSERT review label now])
            else
              match sql_insert d (Some review) (Some label) (Some now) with
              | Raise e => (Error400 e, d, [INSERT review label now])
              | Ok (rowid, d') =>
                (Json200 {| id := rowid; sentiment := label;
                            text := review; created_at := now |}, d',
                 [INSERT review label now])
              end
          end
        end
      end
    end
  end.
Proof.
  unfold serve, add_review, add_review_try, execute_insert, commit.
  unfold io_bind, io_lift, io_raise, io_ret, get_db, close_connection.
  destruct body as [req|]; [|reflexivity].
  destruct (contains_text req) as [[|]|e]; cbn [negb]; try reflexivity.
  destruct (getitem_text req) as [v|e]; [|reflexivity].
  destruct (strip_value v) as [review|e]; [|reflexivity].
  destruct (sentiment_comment lower review) as [label|e]; [|reflexivity].
  cbn [disk g_database executed].
  destruct (encodable review && encodable label && encodable now);
    cbn [negb]; [|reflexivity].
  destruct (sql_insert d (Some review) (Some label) (Some now))
    as [[rowid d']|e]; reflexivity.
Qed.

Lemma sentiment_comment_label (lower : str -> str) (s : str) :
  exists label,
    sentiment_comment lower s = Ok label
    /\ sentiment_check label = true
    /\ encodable label = true.
Proof.
  unfold sentiment_comment.
  destruct (count_words_total (tokens lower s)) as [[p n] Hc].
  rewrite Hc. cbn [bind label_of].
  eexists. split; [reflexivity|].
  destruct (p >? n); [split; reflexivity|].
  destruct (n >? p); split; reflexivity.
Qed.








(** POST /reviews executes a statement exactly when the body is a JSON
    object with a string under [text], and then the one INSERT of the
    stripped text; a body that is not JSON, is not such an object or lacks
    the string is refused before any statement runs.  The route never
    executes a SELECT. *)
Theorem add_review_statements (lower : str -> str) (body : option json)
  (now : str) (d d' : table) (resp : response) (log : list statement) :
  serve (add_review lower body now) d = (resp, d', log) ->
  (forall items s,
      body = Some (JObject items) ->
      dict_get items text_key = Some (JString s) ->
      exists label, log = [INSERT (strip s) label now])
  /\ (~ (exists items s,
            body = Some (JObject items)
            /\ dict_get items text_key = Some (JString s)) ->
      log = [] /\ d' = d /\ exists e, resp = Error400 e)
  /\ (forall param, ~ In (SELECT param) log).
Proof.
  rewrite add_review_equation. intros H. split; [|split].
  - intros items s -> Hget.
    cbn [contains_text getitem_text] in H. rewrite Hget in H.
    cbn [strip_value] in H.
    destruct (sentiment_comment_label lower (strip s)) as [label [Hl _]].
    rewrite Hl in H. exists label.
    destruct (encodable (strip s) && encodable label && encodable now);
      cbn [negb] in H; [|injection H as <- <- <-; reflexivity].
    destruct (sql_insert d (Some (strip s)) (Some label) (Some now))
      as [[rowid t']|e]; injection H as <- <- <-; reflexivity.
  - intros Hno.
    destruct body as [req|]; [|injection H as <- <- <-; eauto].
    destruct (contains_text req) as [[|]|e1] eqn:Hc;
      try (injection H as <- <- <-; eauto; fail).
    destruct (getitem_text req) as [v|e2] eqn:Hg;
      [|injection H as <- <- <-; eauto].
    destruct (strip_value v) as [review|e3] eqn:Hs;
      [|injection H as <- <- <-; eauto].
    exfalso. apply Hno.
    destruct req; try discriminate Hg. cbn [getitem_text] in Hg.
    destruct (dict_get items text_key) as [v'|] eqn:Hget;
      [|discriminate Hg].
    injection Hg as ->. destruct v; try discriminate Hs.
    exists items, s. auto.
  - intros param Hin.
    destruct body as [req|]; [|injection H as <- <- <-; exact Hin].
    destruct (contains_text req) as [[|]|e1];
      try (injection H as <- <- <-; exact Hin).
    destruct (getitem_text req) as [v|e2];
      [|injection H as <- <- <-; exact Hin].
    destruct (strip_value v) as [review|e3];
      [|injection H as <- <- <-; exact Hin].
    destruct (sentiment_comment lower review) as [label|e4];
      [|injection H as <- <- <-; exact Hin].
    destruct (encodable review && encodable label && encodable now);
      cbn [negb] in H;
      [|injection H as <- <- <-; destruct Hin as [Hin|[]];
        discriminate Hin].
    destruct (sql_insert d (Some review) (Some label) (Some now))
      as [[rowid t']|e]; injection H as <- <- <-;
      destruct Hin as [Hin|[]]; discriminate Hin.
Qed.

Lemma add_review_statements_witness :
  exists resp d' log,
    serve (add_review lower_basic (Some (JObject [(text_key, JNumber 5)]))
             sample_now) sample_table = (resp, d', log)
    /\ log = [] /\ d' = sample_table /\ exists e, resp = Error400 e.
Proof.
  eexists; eexists; eexists. split; [reflexivity|].
  refine (proj1 (proj2 (add_review_statements lower_basic
            (Some (JObject [(text_key, JNumber 5)])) sample_now
            sample_table _ _ _ eq_refl)) _).
  intros [items [s [[= <-] Hget]]]. discriminate Hget.
Defined.

Lemma get_reviews_equation (lower : str -> str) (arg : option str)
  (d : table) :
  serve (get_reviews lower arg) d =
  if existsb (str_eqb (normalised lower arg))
       [positive; negative; neutral; []]
  then (JsonList200 (sql_select d (param_of (normalised lower arg))), d,
        [SELECT (param_of (normalised lower arg))])
  else (Error400 InvalidSentiment, d, []).
Proof.
  destruct (existsb (str_eqb (normalised lower arg)) _) eqn:He.
  - apply get_reviews_valid, existsb_str_eqb, He.
  - apply get_reviews_invalid. rewrite <- existsb_str_eqb, He.
    discriminate.
Qed.

(** GET /reviews only reads: whatever the parameter, the table is left as
    it was, no INSERT is executed, and a SELECT is executed exactly when
    the response is a list. *)
Theorem get_reviews_read_only (lower : str -> str) (arg : option str)
  (d : table) :
  exists resp log,
    serve (get_reviews lower arg) d = (resp, d, log)
    /\ (forall tx se cr, ~ In (INSERT tx se cr) log)
    /\ ((exists l param, resp = JsonList200 l /\ log = [SELECT param])
        \/ (resp = Error400 InvalidSentiment /\ log = [])).
Proof.
  rewrite get_reviews_equation.
  destruct (existsb (str_eqb (normalised lower arg)) _);
    eexists; eexists; (split; [reflexivity|]); split.
  - intros tx se cr [H|[]]. discriminate H.
  - left. eexists; eexists; split; reflexivity.
  - intros tx se cr [].
  - right. split; reflexivity.
Qed.

Lemma lstrip_blank (s : str) : blank s -> lstrip s = [].
Proof.
  induction 1 as [|c s Hc _ IH]; simpl; [reflexivity|].
  rewrite Hc. exact IH.
Qed.

Lemma strip_blank (s : str) : blank s -> strip s = [].
Proof.
  intros H. unfold strip. rewrite (lstrip_blank s H). reflexivity.
Qed.

(** A [sentiment] parameter that is omitted, empty or made of white space
    is no filter: the route lists every review, provided lower-casing
    leaves the empty string empty. *)
Theorem blank_filter_lists_all (lower : str -> str) (arg : option str)
  (d : table) :
  lower [] = [] ->
  match arg with Some v => blank v | None => True end ->
  serve (get_reviews lower arg) d
  = (JsonList200 (sql_select d None), d, [SELECT None])
  /\ Permutation (sql_select d None) (rows d).
Proof.
  intros Hlower Harg.
  assert (Hn : normalised lower arg = []).
  { unfold normalised. destruct arg as [v|].
    - rewrite (strip_blank v Harg). exact Hlower.
    - exact Hlower. }
  rewrite get_reviews_equation, Hn. split; [reflexivity|].
  unfold sql_select. rewrite filter_no_where. apply order_by_id_perm.
Qed.

Lemma blank_filter_lists_all_witness :
  serve (get_reviews lower_basic (Some [32; 9]%N)) sample_table
  = (JsonList200 (sql_select sample_table None), sample_table,
     [SELECT None])
  /\ Permutation (sql_select sample_table None) (rows sample_table).
Proof.
  apply (blank_filter_lists_all lower_basic (Some [32; 9]%N) sample_table).
  - reflexivity.
  - repeat constructor.
Defined.

Lemma route_step (lower : str -> str) (rq : request) (d d1 : table)
  (resp : response) (log : list statement) :
  serve (route lower rq) d = (resp, d1, log) ->
  rows d1 = rows d ++ created [resp]
  /\ seq d <= seq d1
  /\ (table_ok d -> table_ok d1).
Proof.
  destruct rq as [body now|arg]; cbn [route]; intros H.
  - apply add_review_cases in H.
    destruct H as [[e [-> ->]]|
                   [items [s [label [rowid [_ [_ [_ [Hins [-> _]]]]]]]]]].
    + cbn [created flat_map app]. rewrite app_nil_r.
      split; [reflexivity|]. split; [lia | exact (fun H => H)].
    + pose proof (sql_insert_table_ok _ _ _ _ _ _ Hins) as Hok.
      pose proof (sql_insert_fresh _ _ _ _ _ _ Hins) as [Hlt [_ [_ Hseq]]].
      apply sql_insert_Ok in Hins.
      destruct Hins as [tx [se [cr [[= <-] [[= <-] [[= <-] [_ [_ [_ Hd]]]]]]]]].
      split; [rewrite Hd; reflexivity|]. split; [lia | exact Hok].
  - rewrite get_reviews_equation in H.
    destruct (existsb (str_eqb (normalised lower arg)) _);
      injection H as <- <- <-; cbn [created flat_map app];
      rewrite app_nil_r;
      (split; [reflexivity|]); (split; [lia | exact (fun H => H)]).
Qed.

Lemma serve_all_appends (lower : str -> str) (rqs : list request) :
  forall d,
    rows (snd (serve_all lower rqs d))
    = rows d ++ created (fst (serve_all lower rqs d))
    /\ length (fst (serve_all lower rqs d)) = length rqs
    /\ seq d <= seq (snd (serve_all lower rqs d))
    /\ (table_ok d -> table_ok (snd (serve_all lower rqs d))).
Proof.
  induction rqs as [|rq rqs IH]; intros d; cbn [serve_all].
  - cbn [fst snd created flat_map length]. rewrite app_nil_r.
    split; [reflexivity|]. split; [reflexivity|].
    split; [lia | exact (fun H => H)].
  - destruct (serve (route lower rq) d) as [[resp d1] log] eqn:Hstep.
    destruct (route_step _ _ _ _ _ _ Hstep) as [Hrows [Hseq Hok]].
    destruct (IH d1) as [Hrows' [Hlen [Hseq' Hok']]].
    destruct (serve_all lower rqs d1) as [resps d2]. cbn [fst snd] in *.
    split; [|split; [|split]].
    + rewrite Hrows', Hrows. unfold created. cbn [flat_map].
      rewrite app_nil_r, <- app_assoc. reflexivity.
    + cbn [length]. rewrite Hlen. reflexivity.
    + lia.
    + intros H. exact (Hok' (Hok H)).
Qed.

(** Whatever requests are served, in whatever order, the table only
    grows: it is the table before, followed by the reviews that the
    successful POST requests returned, in the order of the requests; no
    review is removed or rewritten, and the table keeps its ids ascending
    and its sentiments within the three labels. *)
Theorem requests_only_append (lower : str -> str) (rqs : list request)
  (d : table) :
  rows (snd (serve_all lower rqs d))
  = rows d ++ created (fst (serve_all lower rqs d))
  /\ length (fst (serve_all lower rqs d)) = length rqs
  /\ seq d <= seq (snd (serve_all lower rqs d))
  /\ (table_ok d -> table_ok (snd (serve_all lower rqs d))).
Proof. exact (serve_all_appends lower rqs d). Qed.

Lemma requests_only_append_witness :
  table_ok
    (snd (serve_all lower_basic
            [POST_reviews (Some (JObject [(text_key, JString (u "кайф"))]))
               sample_now;
             GET_reviews (Some (u "bad"));
             POST_reviews (Some (JArray [])) sample_now;
             GET_reviews None]
            sample_table))
  /\ rows
       (snd (serve_all lower_basic
               [POST_reviews
                  (Some (JObject [(text_key, JString (u "кайф"))]))
                  sample_now;
                GET_reviews (Some (u "bad"));
                POST_reviews (Some (JArray [])) sample_now;
                GET_reviews None]
               sample_table))
     = rows sample_table_4.
Proof.
  split.
  - apply (requests_only_append lower_basic
             [POST_reviews (Some (JObject [(text_key, JString (u "кайф"))]))
                sample_now;
              GET_reviews (Some (u "bad"));
              POST_reviews (Some (JArray [])) sample_now;
              GET_reviews None]
             sample_table).
    exact sample_table_ok.
  - reflexivity.
Defined.

(** Write, then read: once POST /reviews has answered with a review, a
    GET /reviews with a valid parameter answers with the list as it was
    before the POST, followed by that review when there is no filter or
    the filter is the review's sentiment, and without it otherwise. *)
Theorem post_then_get (lower : str -> str) (body : option json)
  (now : str) (d d1 : table) (r : Review) (log : list statement)
  (arg : option str) :
  table_ok d ->
  serve (add_review lower body now) d = (Json200 r, d1, log) ->
  In (normalised lower arg) [positive; negative; neutral; []] ->
  serve (get_reviews lower arg) d1
  = (JsonList200
       (sql_select d (param_of (normalised lower arg))
        ++ (if where_clause (param_of (normalised lower arg)) r
            then [r] else [])),
     d1, [SELECT (param_of (normalised lower arg))])
  /\ (normalised lower arg = [] \/ normalised lower arg = sentiment r ->
      where_clause (param_of (normalised lower arg)) r = true)
  /\ (normalised lower arg <> [] ->
      normalised lower arg <> sentiment r ->
      where_clause (param_of (normalised lower arg)) r = false).
Proof.
  intros Hok Hpost Harg.
  apply add_review_cases in Hpost.
  destruct Hpost as [[e [He _]]|
                     [items [s [label [rowid [_ [_ [_ [Hins [Hr _]]]]]]]]]];
    [discriminate|].
  injection Hr as ->.
  rewrite (get_reviews_valid lower arg d1 Harg).
  destruct (select_after_insert d d1 (strip s) label now rowid
              (param_of (normalised lower arg)) Hok Hins) as [_ Hsel].
  cbv zeta in Hsel. rewrite Hsel.
  split; [reflexivity|]. cbn [sentiment].
  destruct (normalised lower arg) as [|c n] eqn:Hn; cbn [param_of where_clause].
  - split; [reflexivity | intros H; contradiction].
  - split.
    + intros [H|H]; [discriminate | rewrite H; apply str_eqb_refl].
    + intros _ H. apply str_eqb_neq. intros Heq. apply H. symmetry.
      exact Heq.
Qed.

Lemma post_then_get_witness :
  serve (get_reviews lower_basic (Some (u " Positive "))) sample_table_4
  = (JsonList200
       (sql_select sample_table (Some positive)
        ++ [ {| id := 4; sentiment := positive; text := u "кайф";
                created_at := sample_now |} ]),
     sample_table_4, [SELECT (Some positive)]).
Proof.
  exact (proj1 (post_then_get lower_basic
                  (Some (JObject [(text_key, JString (u " кайф "))]))
                  sample_now sample_table sample_table_4 _ _
                  (Some (u " Positive ")) sample_table_ok eq_refl
                  (or_introl eq_refl))).
Defined.

(** [init_db] leaves the file with the table and the index, keeps the rows
    of a table that was there, creates an empty one otherwise, and run
    again changes nothing. *)
Theorem init_db_idempotent (f : db_file) :
  reviews (init_db f)
  = Some (match reviews f with Some t => t | None => empty_table end)
  /\ idx_reviews_sent (init_db f) = true
  /\ init_db (init_db f) = init_db f.
Proof.
  destruct f as [[t|] [|]]; repeat split; reflexivity.
Qed.
